(** * Graph-Loom: the Python reference client and the query execution contract

    A shallow embedding of [examples/python_client/client.py] ([run]) and of
    the request/response contract it consumes.

    - [Py]: the pieces of Python that [run] relies on: truthiness of [str],
      replacement fields of f-strings, [repr] of [str] and of [dict], and
      [dict(...)] over the items of a mapping.
    - the data model: [QueryRequest], [Node], [Relationship], [Row],
      [QueryResponse], as the client reads them.
    - the client: [run], as a computation that emits events (channel
      creation, the [Execute] call, every [print]) and may raise
      [grpc.RpcError].
    - [Server]: the mutation accounting and the error tiers a server owes
      its clients.
    - [Wire]: the request in the protobuf wire format.

    Definitions come first; the properties follow, with the scenarios of
    the contract run at the end. *)

From Stdlib Require Import String Ascii NArith List DecimalString DecimalN.
From Stdlib.Strings Require Import Byte.
From stdpp Require Import base option list strings gmap fin_maps.

Local Open Scope N_scope.

(* ===================================================================== *)
(** ** Python: formatting and dictionaries *)
(* ===================================================================== *)

Module Py.

(** Text is a sequence of code points; a character of [string] stands for
    the code point of the same number (0..255). *)

Definition LF : ascii := ascii_of_N 10.
Definition TAB : ascii := ascii_of_N 9.
Definition CR : ascii := ascii_of_N 13.
Definition BACKSLASH : ascii := ascii_of_N 92.
Definition SQUOTE : ascii := ascii_of_N 39.
Definition DQUOTE : ascii := ascii_of_N 34.

Definition chr (c : ascii) : string := String c EmptyString.

(** [bool(s)] for a [str]: the empty string is falsy, anything else truthy. *)
Definition truthy (s : string) : bool :=
  match s with
  | EmptyString => false
  | String _ _ => true
  end.

(** [str.isprintable] on one code point below 256: the C0 and C1 controls,
    DEL, the no-break space and the soft hyphen are not printable. *)
Definition isprintable (c : ascii) : bool :=
  let n := N_of_ascii c in
  ((32 <=? n) && (n <? 127)) || ((161 <=? n) && negb (n =? 173)).

Definition hexdigit (n : N) : ascii :=
  if n <? 10 then ascii_of_N (48 + n) else ascii_of_N (87 + n).

(** One character of [repr(s)], inside the quotes [q]. *)
Definition repr_char (q c : ascii) : string :=
  if Ascii.eqb c q || Ascii.eqb c BACKSLASH then String BACKSLASH (chr c)
  else if Ascii.eqb c TAB then String BACKSLASH "t"
  else if Ascii.eqb c LF then String BACKSLASH "n"
  else if Ascii.eqb c CR then String BACKSLASH "r"
  else if isprintable c then chr c
  else
    let n := N_of_ascii c in
    String BACKSLASH (String "x" (String (hexdigit (n / 16)) (chr (hexdigit (n mod 16))))).

Fixpoint occurs (c : ascii) (s : string) : bool :=
  match s with
  | EmptyString => false
  | String d s' => Ascii.eqb c d || occurs c s'
  end.

Fixpoint repr_chars (q : ascii) (s : string) : string :=
  match s with
  | EmptyString => EmptyString
  | String c s' => repr_char q c +:+ repr_chars q s'
  end.

(** [repr(s)] for a [str]: single quotes, unless the text has a single
    quote and no double quote. *)
Definition repr_str (s : string) : string :=
  let q := if occurs SQUOTE s && negb (occurs DQUOTE s) then DQUOTE else SQUOTE in
  String q (repr_chars q s +:+ chr q).

(** The value of a hexadecimal digit, as [repr] writes them. *)
Definition hexval (c : ascii) : option N :=
  let n := N_of_ascii c in
  if (48 <=? n) && (n <=? 57) then Some (n - 48)
  else if (97 <=? n) && (n <=? 102) then Some (n - 87)
  else None.

(** The text that the inside of a string literal denotes, up to the
    closing quote [q], which must end it. *)
Fixpoint unrepr_chars (q : ascii) (s : string) : option string :=
  match s with
  | EmptyString => None
  | String c s1 =>
      if Ascii.eqb c q then
        match s1 with EmptyString => Some EmptyString | String _ _ => None end
      else if Ascii.eqb c BACKSLASH then
        match s1 with
        | EmptyString => None
        | String e s2 =>
            if Ascii.eqb e BACKSLASH || Ascii.eqb e SQUOTE || Ascii.eqb e DQUOTE
            then String e <$> unrepr_chars q s2
            else if Ascii.eqb e "t" then String TAB <$> unrepr_chars q s2
            else if Ascii.eqb e "n" then String LF <$> unrepr_chars q s2
            else if Ascii.eqb e "r" then String CR <$> unrepr_chars q s2
            else if Ascii.eqb e "x" then
              match s2 with
              | String h1 (String h2 s3) =>
                  match hexval h1, hexval h2 with
                  | Some a, Some b =>
                      String (ascii_of_N (16 * a + b)) <$> unrepr_chars q s3
                  | _, _ => None
                  end
              | _ => None
              end
            else None
        end
      else String c <$> unrepr_chars q s1
  end.

(** The text a string literal denotes, as Python reads the literals that
    [repr] writes: the way back from [repr_str]. *)
Definition unrepr (s : string) : option string :=
  match s with
  | EmptyString => None
  | String q s1 =>
      if Ascii.eqb q SQUOTE || Ascii.eqb q DQUOTE then unrepr_chars q s1 else None
  end.

(** A [dict] keeps its items in insertion order; assigning to a key that
    is present replaces the value in place. *)
Definition dict : Type := list (string * string).

Fixpoint setitem (d : dict) (k v : string) : dict :=
  match d with
  | [] => [(k, v)]
  | (k', v') :: d' =>
      if String.eqb k' k then (k', v) :: d' else (k', v') :: setitem d' k v
  end.

(** [dict(m)] for a mapping [m], given the items of [m] as it iterates. *)
Definition dict_of (items : list (string * string)) : dict :=
  fold_left (fun d kv => setitem d (fst kv) (snd kv)) items [].

Definition repr_item (kv : string * string) : string :=
  repr_str (fst kv) +:+ ": " +:+ repr_str (snd kv).

Fixpoint join (sep : string) (l : list string) : string :=
  match l with
  | [] => ""
  | [s] => s
  | s :: l' => s +:+ sep +:+ join sep l'
  end.

Definition repr_dict (d : dict) : string :=
  "{" +:+ join ", " (map repr_item d) +:+ "}".

(** What a replacement field [{x}] of an f-string turns [x] into:
    [format(x, '')], which is [str(x)] for the types used here. *)
Class Str (A : Type) := str : A -> string.
#[global] Hint Mode Str ! : typeclass_instances.

#[global] Instance str_string : Str string := fun s => s.
#[global] Instance str_int : Str N := fun n => NilEmpty.string_of_uint (N.to_uint n).
#[global] Instance str_bool : Str bool := fun b => if b then "True" else "False".
#[global] Instance str_dict : Str dict := repr_dict.

End Py.

Import Py.

(* ===================================================================== *)
(** ** The data model, as the generated message classes expose it *)
(* ===================================================================== *)

(** The schema and the modules generated from it ([graph_loom_pb2],
    [graph_loom_pb2_grpc]) are imported by the client, not defined in it.
    The field types below are the ones the contract gives: text for [query], [error], [info] and both sides of
    [metadata], unsigned counts, a boolean flag. The contract leaves
    identifiers opaque and does not type labels, so both are parameters,
    each with the [Str] instance an f-string needs. *)

Module QueryRequest.
Record t (V : Type) : Type := mk {
  query : string;
  params : gmap string V;
  log : bool
}.
Arguments mk {V}.
Arguments query {V}.
Arguments params {V}.
Arguments log {V}.
End QueryRequest.

Module Node.
Record t (Id Label : Type) : Type := mk {
  id : Id;
  label : Label;
  metadata : list (string * string)   (* the items of the map, as it iterates *)
}.
Arguments mk {Id Label}.
Arguments id {Id Label}.
Arguments label {Id Label}.
Arguments metadata {Id Label}.
End Node.

Module Relationship.
Record t (Id Label : Type) : Type := mk {
  id : Id;
  from_id : Id;
  to_id : Id;
  label : Label;
  metadata : list (string * string)
}.
Arguments mk {Id Label}.
Arguments id {Id Label}.
Arguments from_id {Id Label}.
Arguments to_id {Id Label}.
Arguments label {Id Label}.
Arguments metadata {Id Label}.
End Relationship.

(** A row as the client can observe it: for each of the three fields,
    [HasField] answers whether it is populated. [None] is a field that is
    not populated. *)
Module Row.
Record t (Id Label : Type) : Type := mk {
  node : option (Node.t Id Label);
  relationship : option (Relationship.t Id Label);
  info : option string
}.
Arguments mk {Id Label}.
Arguments node {Id Label}.
Arguments relationship {Id Label}.
Arguments info {Id Label}.

(** The names [HasField] is asked about. *)
Inductive field : Set := node_field | relationship_field | info_field.

(** [row.HasField(name)] *)
Definition HasField {Id Label} (row : t Id Label) (name : field) : bool :=
  match name with
  | node_field => bool_decide (is_Some (node row))
  | relationship_field => bool_decide (is_Some (relationship row))
  | info_field => bool_decide (is_Some (info row))
  end.

(** How many of the three variants are populated. *)
Definition populated {Id Label} (row : t Id Label) : nat :=
  length (filter (fun name => HasField row name = true)
                 [node_field; relationship_field; info_field]).
End Row.

Module QueryResponse.
Record t (Id Label : Type) : Type := mk {
  error_field : option string;      (* [None]: the field was never set *)
  affected_nodes : N;
  affected_relationships : N;
  mutated : bool;
  rows : list (Row.t Id Label)
}.
Arguments mk {Id Label}.
Arguments error_field {Id Label}.
Arguments affected_nodes {Id Label}.
Arguments affected_relationships {Id Label}.
Arguments mutated {Id Label}.
Arguments rows {Id Label}.

(** [response.error]: reading a text field that was never set gives the
    empty string. *)
Definition error {Id Label} (r : t Id Label) : string :=
  default "" (error_field r).

Definition set_error {Id Label} (e : option string) (r : t Id Label) : t Id Label :=
  mk e (affected_nodes r) (affected_relationships r) (mutated r) (rows r).

Definition set_rows {Id Label} (rs : list (Row.t Id Label)) (r : t Id Label) : t Id Label :=
  mk (error_field r) (affected_nodes r) (affected_relationships r) (mutated r) rs.
End QueryResponse.

(* ===================================================================== *)
(** ** gRPC, as far as the client touches it *)
(* ===================================================================== *)

Module grpc.

Inductive StatusCode : Set :=
| OK | CANCELLED | UNKNOWN | INVALID_ARGUMENT | DEADLINE_EXCEEDED
| NOT_FOUND | ALREADY_EXISTS | PERMISSION_DENIED | RESOURCE_EXHAUSTED
| FAILED_PRECONDITION | ABORTED | OUT_OF_RANGE | UNIMPLEMENTED
| INTERNAL | UNAVAILABLE | DATA_LOSS | UNAUTHENTICATED.

Definition name (c : StatusCode) : string :=
  match c with
  | OK => "OK" | CANCELLED => "CANCELLED" | UNKNOWN => "UNKNOWN"
  | INVALID_ARGUMENT => "INVALID_ARGUMENT"
  | DEADLINE_EXCEEDED => "DEADLINE_EXCEEDED"
  | NOT_FOUND => "NOT_FOUND" | ALREADY_EXISTS => "ALREADY_EXISTS"
  | PERMISSION_DENIED => "PERMISSION_DENIED"
  | RESOURCE_EXHAUSTED => "RESOURCE_EXHAUSTED"
  | FAILED_PRECONDITION => "FAILED_PRECONDITION"
  | ABORTED => "ABORTED" | OUT_OF_RANGE => "OUT_OF_RANGE"
  | UNIMPLEMENTED => "UNIMPLEMENTED" | INTERNAL => "INTERNAL"
  | UNAVAILABLE => "UNAVAILABLE" | DATA_LOSS => "DATA_LOSS"
  | UNAUTHENTICATED => "UNAUTHENTICATED"
  end.

(** [str] of a member of the [StatusCode] enumeration. *)
#[global] Instance str_StatusCode : Str StatusCode :=
  fun c => "StatusCode." +:+ name c.

(** [grpc.RpcError], with what [e.code()] and [e.details()] return. *)
Record RpcError : Set := mkRpcError {
  code : StatusCode;
  details : string
}.

(** A channel: where it points, and whether it was made with
    [insecure_channel] or with [secure_channel]. *)
Inductive Security : Set := Insecure | Secure.

Record Channel : Set := mkChannel {
  target : string;
  security : Security
}.

(** The target of a channel to [host] on [port]. *)
Definition endpoint (host : string) (port : N) : string :=
  host +:+ ":" +:+ str port.

End grpc.

(* ===================================================================== *)
(** ** Computations: events emitted, and a raised [RpcError] *)
(* ===================================================================== *)

Section Effects.

Context {V : Type}.

(** What the program does to the outside world, in order. *)
Inductive Event : Type :=
| OpenChannel (ch : grpc.Channel)
| Call (ch : grpc.Channel) (method : string) (request : QueryRequest.t V)
| Print (line : string).

(** How a computation ends: with a value, or with a raised [RpcError]. *)
Inductive Outcome (A : Type) : Type :=
| Returned (a : A)
| Raised (e : grpc.RpcError).

(** A computation is the events it emitted and how it ended. *)
Definition M (A : Type) : Type := (list Event * Outcome A)%type.

Definition ret {A} (a : A) : M A := ([], Returned A a).

Definition bind {A B} (m : M A) (k : A -> M B) : M B :=
  match m with
  | (tr, Returned _ a) => let (tr', o) := k a in (tr ++ tr', o)
  | (tr, Raised _ e) => (tr, Raised B e)
  end.

Definition raise {A} (e : grpc.RpcError) : M A := ([], Raised A e).

Definition emit (ev : Event) : M unit := ([ev], Returned unit tt).

(** [try: body / except grpc.RpcError as e: handler e] *)
Definition try_except {A} (body : M A) (handler : grpc.RpcError -> M A) : M A :=
  match body with
  | (tr, Returned _ a) => (tr, Returned A a)
  | (tr, Raised _ e) => let (tr', o) := handler e in (tr ++ tr', o)
  end.

(** [for x in xs: body x] *)
Fixpoint for_each {A} (xs : list A) (body : A -> M unit) : M unit :=
  match xs with
  | [] => ret tt
  | x :: xs' => bind (body x) (fun _ => for_each xs' body)
  end.

Definition print (line : string) : M unit := emit (Print line).

(** The texts a run printed, one for each call of [print], in order. *)
Fixpoint stdout (tr : list Event) : list string :=
  match tr with
  | [] => []
  | Print line :: tr' => line :: stdout tr'
  | _ :: tr' => stdout tr'
  end.

End Effects.

Arguments Event : clear implicits.
Arguments M : clear implicits.
Arguments Returned {A}.
Arguments Raised {A}.

#[global] Instance M_ret {V} : MRet (M V) := @ret V.
#[global] Instance M_bind {V} : MBind (M V) := fun A B k m => bind m k.

(* ===================================================================== *)
(** ** The client: [run] *)
(* ===================================================================== *)

Section Client.

Context {V Id Label : Type} `{!Str Id, !Str Label}.

(** What the other end of the wire does with a call: the channel and the
    server either fail the call ([grpc.RpcError] is raised in the client)
    or deliver one response. *)
Variable remote :
  grpc.Channel -> QueryRequest.t V -> grpc.RpcError + QueryResponse.t Id Label.

(** [grpc.insecure_channel(target)] *)
Definition insecure_channel (target : string) : M V grpc.Channel :=
  let ch := grpc.mkChannel target grpc.Insecure in
  emit (OpenChannel ch) ;; mret ch.

(** [graph_loom_pb2_grpc.GraphQueryStub(channel)] *)
Record GraphQueryStub : Set := mkStub { channel : grpc.Channel }.

(** [stub.Execute(request)] *)
Definition Execute (stub : GraphQueryStub) (request : QueryRequest.t V)
  : M V (QueryResponse.t Id Label) :=
  emit (Call (channel stub) "Execute" request) ;;
  match remote (channel stub) request with
  | inl e => raise e
  | inr response => mret response
  end.

Definition TARGET : string := "localhost:50051".
Definition QUERY : string := "CREATE (TEST:Note:URL {name: 'github'});".

(** The request [run] sends (lines 12 to 15). *)
Definition the_request : QueryRequest.t V :=
  {| QueryRequest.query := QUERY;
     QueryRequest.params := ∅;
     QueryRequest.log := true |}.

(** The body of the loop over [response.rows] (lines 38 to 47). The three
    [HasField] tests are tried in order; the first populated field is the
    one printed, and a row with none of them prints nothing. *)
Definition print_row (row : Row.t Id Label) : M V unit :=
  match Row.node row with
  | Some n =>
      print ("[Node] ID: " +:+ str (Node.id n) +:+ ", Label: "
             +:+ str (Node.label n) +:+ ", Meta: "
             +:+ str (dict_of (Node.metadata n)))
  | None =>
      match Row.relationship row with
      | Some r =>
          print ("[Rel] ID: " +:+ str (Relationship.id r) +:+ ", "
                 +:+ str (Relationship.from_id r) +:+ " -> "
                 +:+ str (Relationship.to_id r) +:+ ", Label: "
                 +:+ str (Relationship.label r) +:+ ", Meta: "
                 +:+ str (dict_of (Relationship.metadata r)))
      | None =>
          match Row.info row with
          | Some i => print ("[Info] " +:+ str i)
          | None => mret tt
          end
      end
  end.

(** Lines 28 to 47: what is done with a response that arrived. The early
    [return] of line 30 ends [run], so the rest is the other branch. *)
Definition consume (response : QueryResponse.t Id Label) : M V unit :=
  if truthy (QueryResponse.error response) then
    print ("Server Error: " +:+ str (QueryResponse.error response))
  else
    print ("Affected Nodes: " +:+ str (QueryResponse.affected_nodes response)) ;;
    print ("Affected Relationships: "
           +:+ str (QueryResponse.affected_relationships response)) ;;
    print ("Mutated: " +:+ str (QueryResponse.mutated response)) ;;
    print (String LF "Results:") ;;
    for_each (QueryResponse.rows response) print_row.

(** Line 50: the handler of [grpc.RpcError]. *)
Definition rpc_failed (e : grpc.RpcError) : M V unit :=
  print ("RPC failed: " +:+ str (grpc.code e) +:+ " - " +:+ str (grpc.details e)).

Definition run : M V unit :=
  channel ← insecure_channel TARGET;
  let stub := mkStub channel in
  let request := the_request in
  try_except
    (response ← Execute stub request; consume response)
    rpc_failed.

(** *** What a run is observed by *)

(** The channel [run] opens. *)
Definition the_channel : grpc.Channel := grpc.mkChannel TARGET grpc.Insecure.

(** The lines written while looping over [rows]. *)
Definition printed_for (rows : list (Row.t Id Label)) : list string :=
  stdout (fst (for_each rows print_row)).

(** The four lines written ahead of the rows of a response. *)
Definition header (response : QueryResponse.t Id Label) : list string :=
  [ "Affected Nodes: " +:+ str (QueryResponse.affected_nodes response);
    "Affected Relationships: " +:+ str (QueryResponse.affected_relationships response);
    "Mutated: " +:+ str (QueryResponse.mutated response);
    String LF "Results:" ].

(** The line of a populated node, of a populated relationship, and of a
    populated informational message. *)
Definition node_line (n : Node.t Id Label) : string :=
  "[Node] ID: " +:+ str (Node.id n) +:+ ", Label: " +:+ str (Node.label n)
  +:+ ", Meta: " +:+ repr_dict (dict_of (Node.metadata n)).

Definition relationship_line (r : Relationship.t Id Label) : string :=
  "[Rel] ID: " +:+ str (Relationship.id r) +:+ ", " +:+ str (Relationship.from_id r)
  +:+ " -> " +:+ str (Relationship.to_id r) +:+ ", Label: "
  +:+ str (Relationship.label r) +:+ ", Meta: "
  +:+ repr_dict (dict_of (Relationship.metadata r)).

Definition info_line (i : string) : string := "[Info] " +:+ i.

(** What a row is to show, read off its variants and not off the loop:
    the node if there is one, else the relationship if there is one,
    else the informational message if there is one, else nothing. *)
Definition row_lines (row : Row.t Id Label) : list string :=
  match Row.node row, Row.relationship row, Row.info row with
  | Some n, _, _ => [node_line n]
  | None, Some r, _ => [relationship_line r]
  | None, None, Some i => [info_line i]
  | None, None, None => []
  end.

End Client.

Arguments insecure_channel V target : clear implicits.
Arguments the_request V : clear implicits.
Arguments print_row V {Id Label _ _} row.
Arguments consume V {Id Label _ _} response.
Arguments rpc_failed V e : clear implicits.
Arguments printed_for V {Id Label _ _} rows.

Section Observations.

Context {V : Type}.

(** The channels a run opened, in order. *)
Fixpoint opened_channels (tr : list (Event V)) : list grpc.Channel :=
  match tr with
  | [] => []
  | OpenChannel ch :: tr' => ch :: opened_channels tr'
  | _ :: tr' => opened_channels tr'
  end.

(** The text on standard output after a run: [print] writes its text and
    ends it with a line break. *)
Fixpoint written (tr : list (Event V)) : string :=
  match tr with
  | [] => EmptyString
  | Print text :: tr' => text +:+ String LF (written tr')
  | _ :: tr' => written tr'
  end.

End Observations.

(** The number of line breaks in a text. *)
Fixpoint line_breaks (s : string) : nat :=
  match s with
  | EmptyString => 0%nat
  | String c s' => ((if Ascii.eqb c LF then 1 else 0) + line_breaks s')%nat
  end.

(** [sub] occurs in [s]. *)
Definition contains (sub s : string) : Prop :=
  exists before after, s = before +:+ sub +:+ after.

(** [line] shows the item [k], [v] of a mapping: it holds [key: value],
    the key and the value each written as a literal that reads back as
    the text itself. *)
Definition shows_item (k v line : string) : Prop :=
  contains (repr_str k +:+ ": " +:+ repr_str v) line
  /\ unrepr (repr_str k) = Some k
  /\ unrepr (repr_str v) = Some v.

(* ===================================================================== *)
(** ** The server side of the contract *)
(* ===================================================================== *)

Module Server.
Section Accounting.

Context {Id Label : Type}.

(** The server (query engine and construction of the response) is not in
    the client's file. What follows is the mutation accounting and the
    two error tiers of the contract (data model; 4.1, side effects; 7,
    semantic tier), with the engine itself left opaque: an execution is
    what the engine reports for each statement of the query, or the
    failure of the query as a whole. *)

(** Modelled from the spec: the effect of one statement of a query, which
    the absent engine reports. A write reports how many nodes and
    relationships it created, modified or deleted, which may be none at
    all. *)
Inductive Effect : Type :=
| Read (returned : list (Row.t Id Label))
| Write (nodes relationships : N) (returned : list (Row.t Id Label)).

(** Modelled from the spec: whether the statement was a write, and the
    counts and rows it reported. *)
Definition is_write (e : Effect) : bool :=
  match e with Read _ => false | Write _ _ _ => true end.

(** Modelled from the spec: the nodes a statement affected. *)
Definition nodes_of (e : Effect) : N :=
  match e with Read _ => 0 | Write n _ _ => n end.

(** Modelled from the spec: the relationships a statement affected. *)
Definition relationships_of (e : Effect) : N :=
  match e with Read _ => 0 | Write _ r _ => r end.

(** Modelled from the spec: the rows a statement returned. *)
Definition returned_of (e : Effect) : list (Row.t Id Label) :=
  match e with Read rows => rows | Write _ _ rows => rows end.

(** Modelled from the spec: what the absent engine made of a query, a
    semantic failure with its message, or the effects of its statements
    in order. *)
Inductive Execution : Type :=
| Failed (message : string)
| Completed (effects : list Effect).

(** Modelled from the spec: the convention left to the absent server,
    whether a write that changed nothing is still classified as
    mutating. *)
Record Convention : Set := mkConvention { zero_effect_write_mutates : bool }.

(** Modelled from the spec: whether a statement had a write effect, under
    the server's convention. *)
Definition has_write_effect (conv : Convention) (e : Effect) : bool :=
  is_write e
  && ((0 <? nodes_of e + relationships_of e) || zero_effect_write_mutates conv).

(** Modelled from the spec: a count added up over the statements of the
    query. *)
Definition total (f : Effect -> N) (effects : list Effect) : N :=
  fold_right (fun e acc => f e + acc) 0 effects.

(** Modelled from the spec: the response the absent server builds. The
    counters and the flag report the aggregate effect of the whole query:
    the counters add up, and the flag says whether the query had any
    write effect. There is no partial success: the result fields of a
    failed query are void. *)
Definition respond (conv : Convention) (x : Execution) : QueryResponse.t Id Label :=
  match x with
  | Failed message =>
      QueryResponse.mk (Some message) 0 0 false []
  | Completed effects =>
      QueryResponse.mk None
        (total nodes_of effects)
        (total relationships_of effects)
        (existsb (has_write_effect conv) effects)
        (flat_map returned_of effects)
  end.

End Accounting.
Arguments Effect : clear implicits.
Arguments Execution : clear implicits.
End Server.

(* ===================================================================== *)
(** ** The request on the wire *)
(* ===================================================================== *)

Module Wire.

(** The schema and the serializer generated from it ([graph_loom_pb2])
    are imported by the client, not defined in it. The request is
    [{query: text, params: map<text,value>, log: bool}]; it is encoded
    the way the imported message classes do it, in the protobuf wire
    format, with the fields numbered in the order the contract lists
    them. Text travels as UTF-8. The contract does not type the values
    of [params]: they are a parameter, encoded as a length-delimited
    payload by [encode_value]. Integers are not bounded here. *)

(** Modelled from the spec: a byte of the absent serializer's output, by
    its number. *)
Definition byte_of_N (n : N) : byte :=
  match Byte.of_N n with Some b => b | None => Byte.x00 end.

(** *** Base-128 varints *)

(** Modelled from the spec: the loop of the absent serializer's varint
    writer, at most [fuel] groups past the first. *)
Fixpoint encode_varint_go (fuel : nat) (n : N) : list byte :=
  match fuel with
  | O => [byte_of_N (n mod 128)]
  | S fuel' =>
      if n <? 128 then [byte_of_N n]
      else byte_of_N (128 + n mod 128) :: encode_varint_go fuel' (n / 128)
  end.

(** Modelled from the spec: a varint as the absent serializer writes it,
    little-endian groups of seven bits, the high bit set on all but the
    last. The number of bits of [n] bounds the number of groups. *)
Definition encode_varint (n : N) : list byte :=
  encode_varint_go (N.size_nat n) n.

(** Modelled from the spec: a varint as the absent parser reads it off
    the front of the input. *)
Fixpoint decode_varint (bs : list byte) : option (N * list byte) :=
  match bs with
  | [] => None
  | b :: bs' =>
      let n := Byte.to_N b in
      if n <? 128 then Some (n, bs')
      else
        match decode_varint bs' with
        | Some (hi, rest) => Some (n - 128 + 128 * hi, rest)
        | None => None
        end
  end.

(** *** UTF-8, for the code points a [string] holds (below 256) *)

(** Modelled from the spec: one code point of text, as the absent
    serializer writes it in UTF-8. *)
Definition utf8_char (c : ascii) : list byte :=
  let n := N_of_ascii c in
  if n <? 128 then [byte_of_N n]
  else [byte_of_N (192 + n / 64); byte_of_N (128 + n mod 64)].

(** Modelled from the spec: text as the absent serializer writes it. *)
Fixpoint utf8_encode (s : string) : list byte :=
  match s with
  | EmptyString => []
  | String c s' => utf8_char c ++ utf8_encode s'
  end.

(** Modelled from the spec: text as the absent parser reads it.
    Decoding fails on ill-formed input and on code points from 256 on,
    which a [string] cannot hold. The lead bytes 0xC2 and 0xC3 are the
    ones of the code points 128 to 255. *)
Fixpoint utf8_decode (bs : list byte) : option string :=
  match bs with
  | [] => Some EmptyString
  | b :: bs' =>
      let n := Byte.to_N b in
      if n <? 128 then String (ascii_of_N n) <$> utf8_decode bs'
      else if (n =? 194) || (n =? 195) then
        match bs' with
        | b2 :: bs'' =>
            let n2 := Byte.to_N b2 in
            if (128 <=? n2) && (n2 <? 192) then
              String (ascii_of_N ((n - 192) * 64 + (n2 - 128))) <$> utf8_decode bs''
            else None
        | [] => None
        end
      else None
  end.

(** *** Fields *)

(** Modelled from the spec: the payload of one field of the absent
    schema's messages, by wire type: 0 (varint), 1 (64-bit),
    2 (length-delimited), 5 (32-bit). *)
Inductive Payload : Set :=
| Varint (n : N)
| Fixed64 (bs : list byte)
| Len (bs : list byte)
| Fixed32 (bs : list byte).

(** Modelled from the spec: a field of a message of the absent schema,
    its number and its payload. *)
Definition Field : Set := (N * Payload)%type.

(** Modelled from the spec: the key of a field, as the absent serializer
    writes it. *)
Definition encode_tag (number wire_type : N) : list byte :=
  encode_varint (number * 8 + wire_type).

(** Modelled from the spec: one field, as the absent serializer writes
    it. *)
Definition encode_field (f : Field) : list byte :=
  match f with
  | (number, Varint n) => encode_tag number 0 ++ encode_varint n
  | (number, Fixed64 bs) => encode_tag number 1 ++ bs
  | (number, Len bs) =>
      encode_tag number 2 ++ encode_varint (N.of_nat (length bs)) ++ bs
  | (number, Fixed32 bs) => encode_tag number 5 ++ bs
  end.

(** Modelled from the spec: the fields of a message, one after the
    other, as the absent serializer writes them. *)
Definition encode_fields (fs : list Field) : list byte :=
  flat_map encode_field fs.

(** Modelled from the spec: the first [n] bytes of the absent parser's
    input and the rest, when there are that many. *)
Definition split_bytes (n : nat) (bs : list byte) : option (list byte * list byte) :=
  if bool_decide (n <= length bs)%nat then Some (firstn n bs, skipn n bs) else None.

(** Modelled from the spec: one field off the front of the input, as the
    absent parser reads it. *)
Definition decode_field (bs : list byte) : option (Field * list byte) :=
  '(tag, bs1) ← decode_varint bs;
  let number := tag / 8 in
  match tag mod 8 with
  | 0 => '(n, rest) ← decode_varint bs1; Some ((number, Varint n), rest)
  | 1 => '(payload, rest) ← split_bytes 8 bs1; Some ((number, Fixed64 payload), rest)
  | 2 =>
      '(len, bs2) ← decode_varint bs1;
      '(payload, rest) ← split_bytes (N.to_nat len) bs2;
      Some ((number, Len payload), rest)
  | 5 => '(payload, rest) ← split_bytes 4 bs1; Some ((number, Fixed32 payload), rest)
  | _ => None
  end.

(** Modelled from the spec: the loop of the absent parser over the
    fields of a message, until the input is used up. Every field
    takes at least one byte, so [fuel] beyond the length of the input is
    never used. *)
Fixpoint decode_fields_go (fuel : nat) (bs : list byte) : option (list Field) :=
  match bs with
  | [] => Some []
  | _ :: _ =>
      match fuel with
      | O => None
      | S fuel' =>
          '(f, rest) ← decode_field bs;
          fs ← decode_fields_go fuel' rest;
          Some (f :: fs)
      end
  end.

(** Modelled from the spec: the fields of a message, as the absent
    parser reads them. *)
Definition decode_fields (bs : list byte) : option (list Field) :=
  decode_fields_go (length bs) bs.

(** A fixed-width payload has its width. *)
Definition sized (f : Field) : Prop :=
  match snd f with
  | Fixed64 bs => length bs = 8%nat
  | Fixed32 bs => length bs = 4%nat
  | _ => True
  end.

(** Field numbers: of the request, and of an entry of its map. *)
Abbreviation QUERY := (1%N) (only parsing).
Abbreviation PARAMS := (2%N) (only parsing).
Abbreviation LOG := (3%N) (only parsing).
Abbreviation KEY := (1%N) (only parsing).
Abbreviation VALUE := (2%N) (only parsing).

Section Request.

Context {V : Type}.
Variable encode_value : V -> list byte.
Variable decode_value : list byte -> option V.

(** *** Encoding *)

(** Modelled from the spec: one entry of a map field, as the absent
    serializer writes it: a nested message with the key and the
    value, both always written. *)
Definition encode_entry (kv : string * V) : list byte :=
  encode_fields [(KEY, Len (utf8_encode (fst kv)));
                 (VALUE, Len (encode_value (snd kv)))].

(** Modelled from the spec: the fields the absent serializer writes for
    a request whose map gives its entries in the order
    [entries]. A field that has its default value is not written. *)
Definition request_fields (query : string) (entries : list (string * V)) (log : bool)
  : list Field :=
  (if truthy query then [(QUERY, Len (utf8_encode query))] else [])
  ++ map (fun kv => (PARAMS, Len (encode_entry kv))) entries
  ++ (if log then [(LOG, Varint 1)] else []).

(** Modelled from the spec: the bytes the absent serializer writes for
    those fields. *)
Definition encode_with (query : string) (entries : list (string * V)) (log : bool)
  : list byte :=
  encode_fields (request_fields query entries log).

(** Modelled from the spec: [request.SerializeToString()] of the absent
    generated class; the order of the entries is the
    map's own. *)
Definition encode (r : QueryRequest.t V) : list byte :=
  encode_with (QueryRequest.query r) (map_to_list (QueryRequest.params r))
              (QueryRequest.log r).

(** *** Decoding *)

(** Modelled from the spec: one field merged by the absent parser into
    an entry under construction: the key read so
    far, and the value if one was read. A field that is not known, or
    known with another wire type, is skipped. *)
Definition merge_entry_field (acc : option (string * option V)) (f : Field)
  : option (string * option V) :=
  '(k, v) ← acc;
  match f with
  | (KEY, Len bs) => k' ← utf8_decode bs; Some (k', v)
  | (VALUE, Len bs) => v' ← decode_value bs; Some (k, Some v')
  | _ => Some (k, v)
  end.

(** Modelled from the spec: an entry of a map field, as the absent
    parser reads it. A key that is not on the wire is the empty text; a value that is not
    on the wire is what the empty payload decodes to. *)
Definition decode_entry (bs : list byte) : option (string * V) :=
  fs ← decode_fields bs;
  '(k, v) ← fold_left merge_entry_field fs (Some (EmptyString, None));
  v' ← (if v is Some v' then Some v' else decode_value []);
  Some (k, v').

(** Modelled from the spec: one field merged by the absent parser into
    a request under construction. *)
Definition merge_request_field (acc : option (QueryRequest.t V)) (f : Field)
  : option (QueryRequest.t V) :=
  r ← acc;
  match f with
  | (QUERY, Len bs) =>
      q ← utf8_decode bs;
      Some (QueryRequest.mk q (QueryRequest.params r) (QueryRequest.log r))
  | (PARAMS, Len bs) =>
      '(k, v) ← decode_entry bs;
      Some (QueryRequest.mk (QueryRequest.query r)
                            (<[k:=v]> (QueryRequest.params r))
                            (QueryRequest.log r))
  | (LOG, Varint n) =>
      Some (QueryRequest.mk (QueryRequest.query r) (QueryRequest.params r)
                            (negb (n =? 0)))
  | _ => Some r
  end.

(** Modelled from the spec: [QueryRequest.FromString(bs)] of the absent
    generated class. Every field starts at its default;
    the fields on the wire are merged in order, a later entry with
    the same key replacing the earlier one. *)
Definition decode (bs : list byte) : option (QueryRequest.t V) :=
  fs ← decode_fields bs;
  fold_left merge_request_field fs (Some (QueryRequest.mk EmptyString ∅ false)).

End Request.

(** Modelled from the spec: text values, as in [map<text,text>], written
    and read by the absent serializer. *)
Definition encode_text (s : string) : list byte := utf8_encode s.

(** Modelled from the spec: see [encode_text]. *)
Definition decode_text (bs : list byte) : option string := utf8_decode bs.

End Wire.

(* ===================================================================== *)
(** ** Scenarios *)
(* ===================================================================== *)

Module Scenario.

(** The scenarios of the contract, at text identifiers, labels and
    parameter values, and a few rows and requests to run the definitions
    on. *)

(** A: a write that created one node. *)
Definition response_A : QueryResponse.t string string :=
  QueryResponse.mk (Some "") 1 0 true [].

(** B: a malformed query. *)
Definition response_B : QueryResponse.t string string :=
  QueryResponse.mk (Some "syntax error: unexpected token") 0 0 false [].

(** C: one node comes back. *)
Definition node_C : Node.t string string :=
  Node.mk "1" "Note" [("name", "github")].

Definition response_C : QueryResponse.t string string :=
  QueryResponse.mk None 0 0 false [Row.mk (Some node_C) None None].

(** D: the server cannot be reached. *)
Definition fault_D : grpc.RpcError :=
  grpc.mkRpcError grpc.UNAVAILABLE "failed to connect to all addresses".

Definition delivers (response : QueryResponse.t string string)
  : grpc.Channel -> QueryRequest.t string -> grpc.RpcError + QueryResponse.t string string :=
  fun _ _ => inr response.

Definition fails (e : grpc.RpcError)
  : grpc.Channel -> QueryRequest.t string -> grpc.RpcError + QueryResponse.t string string :=
  fun _ _ => inl e.

Definition edge : Relationship.t string string :=
  Relationship.mk "7" "1" "2" "LINKS" [("since", "2024"); ("via", "it's")].

(** A row with nothing populated, and rows with more than one variant
    populated. *)
Definition empty_row : Row.t string string := Row.mk None None None.
Definition crowded_row : Row.t string string := Row.mk (Some node_C) (Some edge) (Some "both").
Definition edge_and_info : Row.t string string := Row.mk None (Some edge) (Some "both").

Definition mixed_rows : list (Row.t string string) :=
  [ Row.mk (Some node_C) None None; empty_row; Row.mk None (Some edge) None;
    crowded_row; edge_and_info; Row.mk None None (Some "2 rows") ].

Definition response_mixed : QueryResponse.t string string :=
  QueryResponse.mk None 0 0 false mixed_rows.

(** A success whose [error] was set to the empty string, with rows. *)
Definition response_A_rows : QueryResponse.t string string :=
  QueryResponse.mk (Some "") 1 0 true mixed_rows.

(** A node whose metadata has a quote, a backslash and a line break in
    its values. *)
Definition node_awkward : Node.t string string :=
  Node.mk "9" "Note"
    [("title", "it's"); ("path", "C:\tmp"); ("body", String "a" (String LF "b"))].

Definition response_awkward : QueryResponse.t string string :=
  QueryResponse.mk None 0 0 false
    [ Row.mk (Some node_C) None None; Row.mk (Some node_awkward) None None;
      Row.mk None None (Some "2 rows") ].

(** A request with two parameters, and its entries in the other order. *)
Definition request_with_params : QueryRequest.t string :=
  QueryRequest.mk "MATCH (n {name: $name}) RETURN n LIMIT $limit;"
                  (<["name" := "github"]> (<["limit" := "10"]> ∅)) true.

Definition entries_reordered : list (string * string) :=
  [("limit", "10"); ("name", "github")].

(** What the engine reports for a query of two writes and a read, and for
    a write that changed nothing. *)
Definition two_writes_and_a_read : Server.Execution string string :=
  Server.Completed [Server.Write 1 0 []; Server.Write 0 2 []; Server.Read mixed_rows].

Definition idle_write : Server.Execution string string :=
  Server.Completed [Server.Write 0 0 []].

Definition malformed : Server.Execution string string :=
  Server.Failed "syntax error: unexpected token".

End Scenario.

(* ===================================================================== *)
(** ** The module around [run] *)
(* ===================================================================== *)

Section Script.

Context {V Id Label : Type} `{!Str Id, !Str Label}.

Variable remote :
  grpc.Channel -> QueryRequest.t V -> grpc.RpcError + QueryResponse.t Id Label.

(** Lines 53 and 54: what executing the module does after its imports and
    the definition of [run], given the value of [__name__]: [run] is
    called when the file is the script, and not when it is imported. *)
Definition module_body (name : string) : M V unit :=
  if String.eqb name "__main__" then run remote else mret tt.

End Script.

(** Every character of [s] is printable. *)
Fixpoint printable_text (s : string) : bool :=
  match s with
  | EmptyString => true
  | String c s' => isprintable c && printable_text s'
  end.

(** The rows that print a line: those with a variant populated. *)
Definition printing_rows {Id Label} (rows : list (Row.t Id Label))
  : list (Row.t Id Label) :=
  filter (fun row => (0 < Row.populated row)%nat) rows.

(* ===================================================================== *)
(** ** Tactics *)
(* ===================================================================== *)

(** Names the quotient and the remainder of [n] by [d], with the facts
    that tie them to [n], for [lia]. *)
Ltac euclid n d :=
  let Hdm := fresh "Hdm" in
  let Hm := fresh "Hm" in
  pose proof (N.div_mod' n d) as Hdm;
  pose proof (N.mod_upper_bound n d ltac:(discriminate)) as Hm;
  let q := fresh "q" in
  let m := fresh "m" in
  set (q := n / d) in *; set (m := n mod d) in *;
  clearbody q m.

(* ===================================================================== *)
(** * Properties of the client *)
(* ===================================================================== *)

Section ClientFacts.

Context {V Id Label : Type} `{!Str Id, !Str Label}.

Implicit Types (remote : grpc.Channel -> QueryRequest.t V
                         -> grpc.RpcError + QueryResponse.t Id Label).
Implicit Types (response : QueryResponse.t Id Label) (row : Row.t Id Label).

Local Abbreviation print_row := (print_row V).
Local Abbreviation consume := (consume V).
Local Abbreviation printed_for := (printed_for V).
Local Abbreviation the_request := (the_request V).

(** *** The shape of a run *)

Lemma stdout_app (tr1 tr2 : list (Event V)) :
  stdout (tr1 ++ tr2) = stdout tr1 ++ stdout tr2.
Proof.
  induction tr1 as [|ev tr1 IH]; [done|].
  destruct ev; simpl; by rewrite IH.
Qed.

Lemma print_row_returns row : snd (print_row row) = Returned tt.
Proof.
  unfold print_row.
  destruct (Row.node row), (Row.relationship row), (Row.info row); done.
Qed.

Lemma for_each_cons {A} (x : A) xs (body : A -> M V unit) :
  snd (body x) = Returned tt ->
  for_each (x :: xs) body
  = (fst (body x) ++ fst (for_each xs body), snd (for_each xs body)).
Proof.
  intros Hx. simpl. unfold bind.
  destruct (body x) as [tr o]. simpl in Hx. subst o.
  by destruct (for_each xs body).
Qed.

Lemma for_each_print_row_returns (rows : list (Row.t Id Label)) :
  snd (for_each rows print_row) = Returned tt.
Proof.
  induction rows as [|row rows IH]; [done|].
  by rewrite for_each_cons by apply print_row_returns.
Qed.

Lemma printed_for_cons row (rows : list (Row.t Id Label)) :
  printed_for (row :: rows)
  = stdout (fst (print_row row)) ++ printed_for rows.
Proof.
  unfold printed_for.
  rewrite for_each_cons by apply print_row_returns.
  apply stdout_app.
Qed.

Lemma printed_for_app (rows1 rows2 : list (Row.t Id Label)) :
  printed_for (rows1 ++ rows2)
  = printed_for rows1 ++ printed_for rows2.
Proof.
  induction rows1 as [|row rows1 IH]; [done|].
  rewrite <- app_comm_cons, !printed_for_cons, IH. by rewrite app_assoc.
Qed.

(** A response with a non-empty [error]: one line, nothing else. *)
Lemma consume_error response :
  truthy (QueryResponse.error response) = true ->
  consume response
  = ([Print ("Server Error: " +:+ QueryResponse.error response)], Returned tt).
Proof. intros H. unfold consume. by rewrite H. Qed.

(** A response with an empty [error]: the header, then the rows. *)
Lemma consume_success response :
  truthy (QueryResponse.error response) = false ->
  snd (consume response) = Returned tt
  /\ stdout (fst (consume response))
     = header response ++ printed_for (QueryResponse.rows response).
Proof.
  intros H. unfold consume. rewrite H.
  pose proof (for_each_print_row_returns (QueryResponse.rows response)) as Hret.
  unfold printed_for.
  destruct (for_each (QueryResponse.rows response) print_row) as [tr o].
  simpl in Hret. by subst o.
Qed.

Lemma consume_returns response : snd (consume response) = Returned tt.
Proof.
  destruct (truthy (QueryResponse.error response)) eqn:E.
  - by rewrite consume_error.
  - by apply consume_success.
Qed.

Lemma run_delivered remote response :
  remote the_channel the_request = inr response ->
  run remote
  = ([OpenChannel the_channel; Call the_channel "Execute" the_request]
       ++ fst (consume response),
     snd (consume response)).
Proof.
  intros H. unfold run, Execute, insecure_channel. simpl.
  fold the_request. fold the_channel. rewrite H. simpl.
  pose proof (consume_returns response) as Hret.
  destruct (consume response) as [tr o]. simpl in Hret. by subst o.
Qed.

Lemma run_raised remote e :
  remote the_channel the_request = inl e ->
  run remote
  = ([OpenChannel the_channel; Call the_channel "Execute" the_request;
      Print ("RPC failed: " +:+ str (grpc.code e) +:+ " - " +:+ grpc.details e)],
     Returned tt).
Proof.
  intros H. unfold run, Execute, insecure_channel. simpl.
  fold the_request. fold the_channel. by rewrite H.
Qed.

Lemma truthy_true (s : string) : truthy s = true <-> s <> "".
Proof. destruct s; simpl; split; intros; congruence. Qed.

Lemma truthy_false (s : string) : truthy s = false <-> s = "".
Proof. destruct s; simpl; split; intros; congruence. Qed.

Lemma stdout_run_success remote response :
  remote the_channel the_request = inr response ->
  QueryResponse.error response = "" ->
  stdout (fst (run remote))
  = header response ++ printed_for (QueryResponse.rows response).
Proof.
  intros Hr He. rewrite (run_delivered _ _ Hr). simpl.
  apply consume_success. by apply truthy_false.
Qed.

(** *** Text *)

Lemma append_assoc (a b c : string) : (a +:+ b) +:+ c = a +:+ b +:+ c.
Proof.
  induction a as [|x a IH]; [done|].
  change (String x ((a +:+ b) +:+ c) = String x (a +:+ b +:+ c)).
  by rewrite IH.
Qed.

Lemma append_nil_r (a : string) : a +:+ "" = a.
Proof.
  induction a as [|x a IH]; [done|].
  change (String x (a +:+ "") = String x a). by rewrite IH.
Qed.

Lemma contains_here (before sub after : string) :
  contains sub (before +:+ sub +:+ after).
Proof. by exists before, after. Qed.

Lemma contains_later (before sub s : string) :
  contains sub s -> contains sub (before +:+ s).
Proof.
  intros (b & a & ->). exists (before +:+ b), a. by rewrite append_assoc.
Qed.

Lemma contains_end (before sub : string) : contains sub (before +:+ sub).
Proof. exists before, "". by rewrite append_nil_r. Qed.

Lemma contains_refl (s : string) : contains s s.
Proof. exists "", "". by rewrite append_nil_r. Qed.

Lemma contains_trans (a b c : string) :
  contains a b -> contains b c -> contains a c.
Proof.
  intros (b1 & b2 & ->) (c1 & c2 & ->).
  exists (c1 +:+ b1), (b2 +:+ c2). by rewrite !append_assoc.
Qed.

(** *** Dictionaries *)

Lemma setitem_fresh (d : dict) (k v : string) :
  k ∉ d.*1 -> setitem d k v = d ++ [(k, v)].
Proof.
  induction d as [|[k' v'] d IH]; [done|].
  intros Hfresh. apply not_elem_of_cons in Hfresh as [Hne Hfresh]. simpl in *.
  destruct (String.eqb k' k) eqn:E.
  - apply String.eqb_eq in E. congruence.
  - by rewrite IH.
Qed.

Lemma fold_setitem (d : dict) (items : list (string * string)) :
  NoDup (d.*1 ++ items.*1) ->
  fold_left (fun d kv => setitem d (fst kv) (snd kv)) items d = d ++ items.
Proof.
  revert d. induction items as [|[k v] items IH]; intros d Hnodup; simpl.
  - by rewrite app_nil_r.
  - rewrite setitem_fresh.
    + rewrite IH; [by rewrite <- app_assoc|].
      by rewrite fmap_app, <- app_assoc.
    + apply NoDup_app in Hnodup as (_ & Hdisjoint & _).
      intros Hin. apply (Hdisjoint k Hin). simpl. apply list_elem_of_here.
Qed.

(** The items of a mapping have distinct keys, and [dict] keeps them as
    they come. *)
Lemma dict_of_unique_keys (items : list (string * string)) :
  NoDup (items.*1) -> dict_of items = items.
Proof. intros Hnodup. unfold dict_of. by rewrite fold_setitem. Qed.

Lemma join_contains (sep s : string) (l : list string) :
  s ∈ l -> contains s (join sep l).
Proof.
  induction l as [|x l IH]; [by intros ?%elem_of_nil|].
  intros [->|Hin]%elem_of_cons.
  - destruct l as [|y l]; [apply contains_refl|].
    change (contains x ("" +:+ x +:+ sep +:+ join sep (y :: l))).
    apply contains_here.
  - destruct l as [|y l]; [by apply elem_of_nil in Hin|].
    change (contains s (x +:+ sep +:+ join sep (y :: l))).
    by apply contains_later, contains_later, IH.
Qed.

(** Every item of a dictionary shows in its [repr], as [key: value] with
    both sides quoted. *)
Lemma repr_dict_contains_item (d : dict) (kv : string * string) :
  kv ∈ d -> contains (repr_item kv) (repr_dict d).
Proof.
  intros Hin. unfold repr_dict.
  apply contains_later.
  apply contains_trans with (join ", " (map repr_item d)).
  - apply join_contains. by apply list_elem_of_fmap_2.
  - exists "", "}". done.
Qed.

(** *** Literals read back *)

Lemma unrepr_chars_repr_char (q c : ascii) (rest : string) :
  q = SQUOTE \/ q = DQUOTE ->
  unrepr_chars q (repr_char q c +:+ rest) = String c <$> unrepr_chars q rest.
Proof.
  intros [-> | ->]; by destruct c as [[] [] [] [] [] [] [] []].
Qed.

Lemma unrepr_chars_repr_chars (q : ascii) (s : string) :
  q = SQUOTE \/ q = DQUOTE ->
  unrepr_chars q (repr_chars q s +:+ chr q) = Some s.
Proof.
  intros Hq. induction s as [|c s IH].
  - by destruct Hq as [-> | ->].
  - simpl repr_chars. by rewrite append_assoc, unrepr_chars_repr_char, IH.
Qed.

(** Reading back what [repr] wrote gives the text itself. *)
Lemma unrepr_repr_str (s : string) : unrepr (repr_str s) = Some s.
Proof.
  unfold repr_str.
  destruct (occurs SQUOTE s && negb (occurs DQUOTE s)).
  - change (unrepr_chars DQUOTE (repr_chars DQUOTE s +:+ chr DQUOTE) = Some s).
    apply unrepr_chars_repr_chars. by right.
  - change (unrepr_chars SQUOTE (repr_chars SQUOTE s +:+ chr SQUOTE) = Some s).
    apply unrepr_chars_repr_chars. by left.
Qed.

(** An item of a mapping is shown by whatever holds the [repr] of its
    dictionary. *)
Lemma item_shown (items : list (string * string)) (k v line : string) :
  NoDup (items.*1) -> (k, v) ∈ items ->
  contains (repr_dict (dict_of items)) line ->
  shows_item k v line.
Proof.
  intros Hnodup Hin Hline. rewrite dict_of_unique_keys in Hline by done.
  split; [|split; apply unrepr_repr_str].
  eapply contains_trans; [|exact Hline].
  by apply (repr_dict_contains_item items (k, v)).
Qed.

(** *** Rows and their variants *)

(** The loop prints, row after row, what each row is to show. *)
Lemma printed_for_row_lines (rows : list (Row.t Id Label)) :
  printed_for rows = flat_map row_lines rows.
Proof.
  induction rows as [|row rows IH]; [done|].
  rewrite printed_for_cons, IH. simpl. f_equal.
  unfold print_row, row_lines.
  by destruct (Row.node row), (Row.relationship row), (Row.info row).
Qed.

Lemma populated_eq row :
  Row.populated row
  = ((if Row.node row is Some _ then 1 else 0)
     + (if Row.relationship row is Some _ then 1 else 0)
     + (if Row.info row is Some _ then 1 else 0))%nat.
Proof.
  unfold Row.populated, Row.HasField.
  by destruct (Row.node row), (Row.relationship row), (Row.info row).
Qed.

(** The lines of a run that got [response], split around one of its rows. *)
Lemma stdout_run_around remote response before row after :
  remote the_channel the_request = inr response ->
  QueryResponse.error response = "" ->
  QueryResponse.rows response = before ++ row :: after ->
  stdout (fst (run remote))
  = header response ++ printed_for before
      ++ stdout (fst (print_row row)) ++ printed_for after.
Proof.
  intros Hr He Hrows.
  rewrite (stdout_run_success _ _ Hr He), Hrows.
  by rewrite printed_for_app, printed_for_cons.
Qed.

Lemma run_returns remote : snd (run remote) = Returned tt.
Proof.
  destruct (remote the_channel the_request) as [e|response] eqn:E.
  - by rewrite (run_raised _ _ E).
  - rewrite (run_delivered _ _ E). apply consume_returns.
Qed.

Lemma run_server_error remote response :
  remote the_channel the_request = inr response ->
  QueryResponse.error response <> "" ->
  run remote
  = ([OpenChannel the_channel; Call the_channel "Execute" the_request;
      Print ("Server Error: " +:+ QueryResponse.error response)],
     Returned tt).
Proof.
  intros Hr He. apply truthy_true in He.
  by rewrite (run_delivered _ _ Hr), consume_error.
Qed.

(** *** What [run] does *)

(** C1: when the response that arrives has a non-empty [error], the run
    opens the channel, makes the call and prints the single line
    [Server Error: <error>]; nothing else is printed, so two responses
    with the same [error] give the same output whatever their [rows],
    [affected_nodes], [affected_relationships] and [mutated] are. *)
Theorem server_error_is_reported_alone remote response :
  remote the_channel the_request = inr response ->
  QueryResponse.error response <> "" ->
  run remote
  = ([OpenChannel the_channel; Call the_channel "Execute" the_request;
      Print ("Server Error: " +:+ QueryResponse.error response)],
     Returned tt)
  /\ forall remote' response',
       remote' the_channel the_request = inr response' ->
       QueryResponse.error response' = QueryResponse.error response ->
       stdout (fst (run remote')) = stdout (fst (run remote)).
Proof.
  intros Hr He. split; [by apply run_server_error|].
  intros remote' response' Hr' Hsame.
  rewrite (run_server_error remote response Hr He).
  rewrite (run_server_error remote' response' Hr') by (by rewrite Hsame).
  by rewrite Hsame.
Qed.

(** C2: when the call fails at the transport level, [grpc.RpcError] is
    raised where a response would have been returned: the run opens the
    channel, makes the call and prints the single line
    [RPC failed: <code> - <details>], built from the fault alone, and
    ends normally. No run that was handed a response prints the same. *)
Theorem transport_failure_is_reported_apart remote e :
  remote the_channel the_request = inl e ->
  run remote
  = ([OpenChannel the_channel; Call the_channel "Execute" the_request;
      Print ("RPC failed: " +:+ str (grpc.code e) +:+ " - " +:+ grpc.details e)],
     Returned tt)
  /\ forall remote' response,
       remote' the_channel the_request = inr response ->
       stdout (fst (run remote')) <> stdout (fst (run remote)).
Proof.
  intros Hr. split; [by apply run_raised|].
  intros remote' response Hr'.
  rewrite (run_raised _ _ Hr), (run_delivered _ _ Hr'). simpl.
  destruct (truthy (QueryResponse.error response)) eqn:E.
  - rewrite consume_error by done. simpl. intros [=].
  - destruct (consume_success response E) as [_ ->].
    unfold header. simpl. intros [=].
Qed.

(** C3: in a run that got a response with an empty [error], a row with
    exactly one variant populated contributes exactly one line, at its
    place among the lines of the rows before and after it, and the line
    is the one of that variant: for a node it holds its [id], [label]
    and [metadata]; for a relationship its [id], [from_id], [to_id],
    [label] and [metadata]; for an informational message its text.
    Holding the metadata means: the line holds the [repr] of the
    dictionary, and every item of the map itself is shown in it as
    [key: value], both sides literals that read back as the key and the
    value (the items of a map have distinct keys). The rows before and
    after contribute what they are to show. *)
Theorem row_is_rendered_by_its_variant remote response before row after :
  remote the_channel the_request = inr response ->
  QueryResponse.error response = "" ->
  QueryResponse.rows response = before ++ row :: after ->
  Row.populated row = 1%nat ->
  exists line,
    stdout (fst (run remote))
    = header response ++ printed_for before ++ line :: printed_for after
    /\ stdout (fst (run remote))
       = header response ++ flat_map row_lines before
           ++ line :: flat_map row_lines after
    /\ (forall n, Row.node row = Some n ->
          line = node_line n
          /\ contains (str (Node.id n)) line
          /\ contains (str (Node.label n)) line
          /\ contains (str (dict_of (Node.metadata n))) line
          /\ (forall kv, kv ∈ dict_of (Node.metadata n) ->
                         contains (repr_item kv) line)
          /\ (NoDup ((Node.metadata n).*1) ->
              forall k v, (k, v) ∈ Node.metadata n -> shows_item k v line))
    /\ (forall r, Row.relationship row = Some r ->
          line = relationship_line r
          /\ contains (str (Relationship.id r)) line
          /\ contains (str (Relationship.from_id r)) line
          /\ contains (str (Relationship.to_id r)) line
          /\ contains (str (Relationship.label r)) line
          /\ contains (str (dict_of (Relationship.metadata r))) line
          /\ (forall kv, kv ∈ dict_of (Relationship.metadata r) ->
                         contains (repr_item kv) line)
          /\ (NoDup ((Relationship.metadata r).*1) ->
              forall k v, (k, v) ∈ Relationship.metadata r -> shows_item k v line))
    /\ (forall i, Row.info row = Some i ->
          line = info_line i /\ contains i line).
Proof.
  intros Hr He Hrows Hone.
  rewrite <- !printed_for_row_lines.
  rewrite (stdout_run_around _ _ _ _ _ Hr He Hrows).
  rewrite populated_eq in Hone. unfold print_row.
  destruct (Row.node row) as [n|], (Row.relationship row) as [r|],
    (Row.info row) as [i|]; try discriminate Hone; simpl.
  - exists (node_line n). split; [done|]. split; [done|].
    split; [|split; intros ? [=]]. intros ? [= <-].
    split; [done|]. unfold node_line.
    split_and!;
      try (intros Hnodup k v Hkv; apply (item_shown _ _ _ _ Hnodup Hkv));
      try (intros kv Hkv; eapply contains_trans;
           [by apply repr_dict_contains_item|]);
      repeat first [apply contains_here | apply contains_end | apply contains_later].
  - exists (relationship_line r). split; [done|]. split; [done|].
    split; [intros ? [=]|split; [|intros ? [=]]]. intros ? [= <-].
    split; [done|]. unfold relationship_line.
    split_and!;
      try (intros Hnodup k v Hkv; apply (item_shown _ _ _ _ Hnodup Hkv));
      try (intros kv Hkv; eapply contains_trans;
           [by apply repr_dict_contains_item|]);
      repeat first [apply contains_here | apply contains_end | apply contains_later].
  - exists (info_line i). split; [done|]. split; [done|].
    split; [intros ? [=]|split; [intros ? [=]|]]. intros ? [= <-].
    split; [done|]. apply contains_end.
Qed.

(** C4: a row with none of the three variants populated prints nothing
    and raises nothing; the run goes on with the rows after it and ends
    normally: what is printed is the header, then what each row before
    it is to show, then what each row after it is to show, the same as
    for the response without that row. *)
Theorem empty_row_is_skipped remote response before row after :
  remote the_channel the_request = inr response ->
  QueryResponse.error response = "" ->
  QueryResponse.rows response = before ++ row :: after ->
  Row.populated row = 0%nat ->
  print_row row = ([], Returned tt)
  /\ snd (run remote) = Returned tt
  /\ stdout (fst (run remote))
     = header response ++ printed_for before ++ printed_for after
  /\ stdout (fst (run remote))
     = stdout (fst (run (V:=V)
         (fun _ _ => inr (QueryResponse.set_rows (before ++ after) response))))
  /\ stdout (fst (run remote))
     = header response ++ flat_map row_lines before ++ flat_map row_lines after.
Proof.
  intros Hr He Hrows Hnone.
  assert (Hrow : print_row row = ([], Returned tt)).
  { rewrite populated_eq in Hnone. unfold print_row.
    by destruct (Row.node row), (Row.relationship row), (Row.info row). }
  split; [done|]. split; [apply run_returns|].
  rewrite <- !printed_for_row_lines.
  rewrite (stdout_run_around _ _ _ _ _ Hr He Hrows), Hrow. simpl.
  split; [done|]. split; [|done].
  erewrite stdout_run_success; [|reflexivity|done].
  simpl. by rewrite printed_for_app.
Qed.

Lemma opened_channels_prints (texts : list string) :
  opened_channels (V:=V) (map Print texts) = [].
Proof. induction texts as [|text texts IH]; [done|]. exact IH. Qed.

Lemma run_trace remote :
  fst (run remote)
  = OpenChannel the_channel
    :: Call the_channel "Execute" the_request
    :: map Print (stdout (fst (run remote))).
Proof.
  destruct (remote the_channel the_request) as [e|response] eqn:E.
  - by rewrite (run_raised _ _ E).
  - rewrite (run_delivered _ _ E). simpl. do 2 f_equal.
    unfold consume.
    destruct (truthy (QueryResponse.error response)); [done|].
    pose proof (for_each_print_row_returns (QueryResponse.rows response)) as Hret.
    assert (forall rows : list (Row.t Id Label),
               fst (for_each rows print_row)
               = map Print (stdout (fst (for_each rows print_row)))) as Hrows.
    { intros rows. induction rows as [|row rows IH]; [done|].
      rewrite for_each_cons by apply print_row_returns. simpl.
      rewrite stdout_app, map_app, <- IH. f_equal.
      unfold print_row.
      by destruct (Row.node row), (Row.relationship row), (Row.info row). }
    specialize (Hrows (QueryResponse.rows response)).
    destruct (for_each (QueryResponse.rows response) print_row) as [tr o].
    simpl in *. subst o. simpl. by rewrite <- Hrows.
Qed.

Lemma run_opens_the_channel remote :
  opened_channels (fst (run remote)) = [the_channel].
Proof. rewrite run_trace. simpl. by rewrite opened_channels_prints. Qed.

(** C8, as amended: the endpoint is not configurable. Whatever the other
    end does, the one channel a run opens is an insecure channel to the
    literal [localhost:50051], that is host [localhost] and port 50051;
    the [Execute] call is made over that channel; and no two runs open
    different channels. *)
Theorem connects_insecurely_to_the_fixed_endpoint remote :
  opened_channels (fst (run remote))
  = [grpc.mkChannel (grpc.endpoint "localhost" 50051) grpc.Insecure]
  /\ (exists rest,
        fst (run remote)
        = OpenChannel (grpc.mkChannel (grpc.endpoint "localhost" 50051) grpc.Insecure)
          :: Call (grpc.mkChannel (grpc.endpoint "localhost" 50051) grpc.Insecure)
                  "Execute" the_request
          :: rest)
  /\ forall remote',
       opened_channels (fst (run remote')) = opened_channels (fst (run remote)).
Proof.
  split; [apply run_opens_the_channel|]. split.
  - rewrite run_trace. by eexists.
  - intros remote'. by rewrite !run_opens_the_channel.
Qed.

(** C9: the run reports a semantic failure exactly when [error] reads as
    a non-empty string. A response whose [error] is the empty string is
    handled as a success: the counts and the flag are printed, and then,
    for every row in order, what the row is to show. A response whose
    [error] was set to the empty string and one whose [error] was never
    set give the same run. *)
Theorem empty_error_is_success remote response :
  remote the_channel the_request = inr response ->
  (stdout (fst (run remote)) = ["Server Error: " +:+ QueryResponse.error response]
   <-> QueryResponse.error response <> "")
  /\ (QueryResponse.error response = "" ->
      stdout (fst (run remote))
      = header response ++ printed_for (QueryResponse.rows response))
  /\ run (V:=V) (fun _ _ => inr (QueryResponse.set_error (Some "") response))
     = run (V:=V) (fun _ _ => inr (QueryResponse.set_error None response))
  /\ (QueryResponse.error response = "" ->
      stdout (fst (run remote))
      = header response ++ flat_map row_lines (QueryResponse.rows response)).
Proof.
  intros Hr. split; [|split; [|split]].
  - split.
    + intros Hout He. rewrite (stdout_run_success _ _ Hr He) in Hout.
      unfold header in Hout. simpl in Hout. discriminate Hout.
    + intros He. by rewrite (run_server_error remote response Hr He).
  - by apply stdout_run_success.
  - by rewrite !(run_delivered _ _ eq_refl).
  - intros He. rewrite <- printed_for_row_lines. by apply stdout_run_success.
Qed.

(** C10: a row with more than one variant populated still contributes
    exactly one line: the node's if the node is populated, otherwise the
    relationship's. An informational message that is populated next to
    another variant is never the one printed. *)
Theorem first_populated_variant_wins remote response before row after :
  remote the_channel the_request = inr response ->
  QueryResponse.error response = "" ->
  QueryResponse.rows response = before ++ row :: after ->
  (2 <= Row.populated row)%nat ->
  exists line,
    stdout (fst (run remote))
    = header response ++ printed_for before ++ line :: printed_for after
    /\ (forall n, Row.node row = Some n -> line = node_line n)
    /\ (forall r, Row.node row = None -> Row.relationship row = Some r ->
          line = relationship_line r)
    /\ (forall i, Row.info row = Some i -> line <> info_line i).
Proof.
  intros Hr He Hrows Hmany.
  rewrite (stdout_run_around _ _ _ _ _ Hr He Hrows).
  rewrite populated_eq in Hmany. unfold print_row.
  destruct (Row.node row) as [n|], (Row.relationship row) as [r|],
    (Row.info row) as [i|]; simpl in Hmany; try lia; simpl.
  - exists (node_line n). split; [done|].
    split; [by intros ? [= <-]|]. split; [by intros ? [=]|].
    intros ? _. unfold node_line, info_line. intros [=].
  - exists (node_line n). split; [done|].
    split; [by intros ? [= <-]|]. split; [by intros ? [=]|].
    intros ? [=].
  - exists (node_line n). split; [done|].
    split; [by intros ? [= <-]|]. split; [by intros ? [=]|].
    intros ? _. unfold node_line, info_line. intros [=].
  - exists (relationship_line r). split; [done|].
    split; [by intros ? [=]|]. split; [by intros ? _ [= <-]|].
    intros ? _. unfold relationship_line, info_line. intros [=].
Qed.

End ClientFacts.

(* ===================================================================== *)
(** * Properties of the responses a server builds *)
(* ===================================================================== *)

Section ServerFacts.

Context {Id Label : Type}.

Implicit Types (e : Server.Effect Id Label) (effects : list (Server.Effect Id Label)).
Implicit Types (x : Server.Execution Id Label) (conv : Server.Convention).

(** Without the convention, a statement has a write effect exactly when it
    changed something. *)
Lemma has_write_effect_plain e :
  Server.has_write_effect (Server.mkConvention false) e
  = (0 <? Server.nodes_of e + Server.relationships_of e).
Proof.
  destruct e as [rows|n r rows]; unfold Server.has_write_effect; simpl.
  - done.
  - by rewrite orb_false_r.
Qed.

Lemma some_write_effect_iff_counted effects :
  existsb (Server.has_write_effect (Server.mkConvention false)) effects = true
  <-> 0 < Server.total Server.nodes_of effects
          + Server.total Server.relationships_of effects.
Proof.
  induction effects as [|e effects IH]; simpl.
  - split; [discriminate|lia].
  - rewrite orb_true_iff, IH, has_write_effect_plain, N.ltb_lt. lia.
Qed.

(** A statement that changed something has a write effect under either
    convention. *)
Lemma counted_has_write_effect conv effects :
  0 < Server.total Server.nodes_of effects
      + Server.total Server.relationships_of effects ->
  existsb (Server.has_write_effect conv) effects = true.
Proof.
  induction effects as [|e effects IH]; simpl; [lia|].
  intros Hpos. apply orb_true_iff.
  destruct (N.eq_dec (Server.nodes_of e + Server.relationships_of e) 0) as [Hz|Hnz].
  - right. apply IH. lia.
  - left. destruct e as [rows|n r rows]; simpl in *; [done|].
    unfold Server.has_write_effect. simpl.
    apply orb_true_iff. left. apply N.ltb_lt. lia.
Qed.

(** C5: in every response of a server that does not classify a write
    without effect as mutating, [mutated] is true exactly when
    [affected_nodes + affected_relationships] is positive. *)
Theorem mutated_iff_affected x :
  QueryResponse.mutated (Server.respond (Server.mkConvention false) x) = true
  <-> 0 < QueryResponse.affected_nodes (Server.respond (Server.mkConvention false) x)
          + QueryResponse.affected_relationships
              (Server.respond (Server.mkConvention false) x).
Proof.
  destruct x as [message|effects]; simpl.
  - split; [discriminate|lia].
  - apply some_write_effect_iff_counted.
Qed.

(** C6: in every response the server builds, a non-empty [error] comes
    with no rows and with both counters at zero. *)
Theorem error_response_is_void conv x :
  QueryResponse.error (Server.respond conv x) <> "" ->
  QueryResponse.rows (Server.respond conv x) = []
  /\ QueryResponse.affected_nodes (Server.respond conv x) = 0
  /\ QueryResponse.affected_relationships (Server.respond conv x) = 0.
Proof.
  destruct x as [message|effects]; simpl; [done|].
  intros Herr. by destruct Herr.
Qed.

End ServerFacts.

(* ===================================================================== *)
(** * Properties of the wire format *)
(* ===================================================================== *)

Section WireFacts.

Import Wire.

(** *** Bytes and varints *)

Lemma to_N_byte_of_N (n : N) : n < 256 -> Byte.to_N (byte_of_N n) = n.
Proof.
  intros Hn. unfold byte_of_N.
  destruct (Byte.of_N n) as [b|] eqn:E.
  - by apply Byte.to_of_N.
  - apply Byte.of_N_None_iff in E. lia.
Qed.

Lemma pos_below_size (p : positive) : N.pos p < 2 ^ N.of_nat (Pos.size_nat p).
Proof.
  induction p as [p IH|p IH|]; simpl Pos.size_nat.
  - rewrite Nat2N.inj_succ, N.pow_succ_r'.
    change (N.pos p~1) with (2 * N.pos p + 1). lia.
  - rewrite Nat2N.inj_succ, N.pow_succ_r'.
    change (N.pos p~0) with (2 * N.pos p). lia.
  - reflexivity.
Qed.

Lemma below_size (n : N) : n < 2 ^ N.of_nat (N.size_nat n).
Proof. destruct n as [|p]; [done|apply pos_below_size]. Qed.

Lemma encode_varint_go_nonempty (fuel : nat) (n : N) : encode_varint_go fuel n <> [].
Proof. destruct fuel; simpl; [done|]. by destruct (n <? 128). Qed.

Lemma decode_encode_varint_go (fuel : nat) (n : N) (rest : list byte) :
  n < 2 ^ N.of_nat fuel ->
  decode_varint (encode_varint_go fuel n ++ rest) = Some (n, rest).
Proof.
  revert n. induction fuel as [|fuel IH]; intros n Hn.
  - simpl in Hn. assert (n = 0) as -> by lia. done.
  - simpl encode_varint_go. destruct (n <? 128) eqn:Hsmall.
    + apply N.ltb_lt in Hsmall. simpl.
      rewrite to_N_byte_of_N by lia.
      apply N.ltb_lt in Hsmall. by rewrite Hsmall.
    + apply N.ltb_ge in Hsmall.
      rewrite <- app_comm_cons. simpl decode_varint.
      rewrite IH.
      * euclid n 128.
        rewrite to_N_byte_of_N by lia.
        destruct (128 + m <? 128) eqn:Hhigh; [apply N.ltb_lt in Hhigh; lia|].
        f_equal. f_equal. lia.
      * rewrite Nat2N.inj_succ, N.pow_succ_r' in Hn.
        apply N.Div0.div_lt_upper_bound. lia.
Qed.

Lemma decode_encode_varint (n : N) (rest : list byte) :
  decode_varint (encode_varint n ++ rest) = Some (n, rest).
Proof. apply decode_encode_varint_go, below_size. Qed.

(** *** Text *)

Lemma utf8_decode_char (c : ascii) (rest : list byte) :
  utf8_decode (utf8_char c ++ rest) = String c <$> utf8_decode rest.
Proof.
  unfold utf8_char.
  pose proof (N_ascii_bounded c) as Hc.
  pose proof (ascii_N_embedding c) as Hback.
  set (n := N_of_ascii c) in *.
  destruct (n <? 128) eqn:Hsmall.
  - apply N.ltb_lt in Hsmall. simpl.
    rewrite to_N_byte_of_N by lia.
    apply N.ltb_lt in Hsmall. by rewrite Hsmall, Hback.
  - apply N.ltb_ge in Hsmall. simpl.
    euclid n 64.
    assert (q = 2 \/ q = 3) as Hq by lia.
    rewrite !to_N_byte_of_N by lia.
    replace (192 + q <? 128) with false by (symmetry; apply N.ltb_ge; lia).
    replace ((192 + q =? 194) || (192 + q =? 195)) with true
      by (destruct Hq as [-> | ->]; done).
    replace ((128 <=? 128 + m) && (128 + m <? 192)) with true
      by (symmetry; apply andb_true_iff; split;
          [apply N.leb_le | apply N.ltb_lt]; lia).
    replace ((192 + q - 192) * 64 + (128 + m - 128)) with n by lia.
    by rewrite Hback.
Qed.

Lemma utf8_round_trip (s : string) : utf8_decode (utf8_encode s) = Some s.
Proof.
  induction s as [|c s IH]; [done|].
  simpl utf8_encode. by rewrite utf8_decode_char, IH.
Qed.

(** *** Fields *)

Lemma split_bytes_app (payload rest : list byte) :
  split_bytes (length payload) (payload ++ rest) = Some (payload, rest).
Proof.
  unfold split_bytes. rewrite bool_decide_true.
  - by rewrite take_app_length, drop_app_length.
  - rewrite length_app. lia.
Qed.

Lemma tag_number (number wire_type : N) :
  wire_type < 8 -> (number * 8 + wire_type) / 8 = number.
Proof. intros H. rewrite N.div_add_l by done. rewrite N.div_small by done. lia. Qed.

Lemma tag_wire_type (number wire_type : N) :
  wire_type < 8 -> (number * 8 + wire_type) mod 8 = wire_type.
Proof.
  intros H. rewrite N.add_comm, N.Div0.mod_add. by apply N.mod_small.
Qed.

Lemma decode_encode_field (f : Field) (rest : list byte) :
  sized f -> decode_field (encode_field f ++ rest) = Some (f, rest).
Proof.
  destruct f as [number [n|bs|bs|bs]]; unfold sized; simpl; intros Hsized;
    unfold decode_field, encode_tag; rewrite <- !app_assoc;
    rewrite decode_encode_varint; simpl;
    rewrite tag_number, tag_wire_type by done; simpl.
  - by rewrite decode_encode_varint.
  - rewrite <- Hsized. by rewrite split_bytes_app.
  - rewrite decode_encode_varint. simpl.
    rewrite Nat2N.id. by rewrite split_bytes_app.
  - rewrite <- Hsized. by rewrite split_bytes_app.
Qed.

Lemma encode_field_nonempty (f : Field) : (1 <= length (encode_field f))%nat.
Proof.
  assert (forall n bs, (1 <= length (encode_varint n ++ bs))%nat) as H.
  { intros n bs. unfold encode_varint.
    pose proof (encode_varint_go_nonempty (N.size_nat n) n).
    destruct (encode_varint_go (N.size_nat n) n); [done|simpl; lia]. }
  destruct f as [number [n|bs|bs|bs]]; simpl; unfold encode_tag; apply H.
Qed.

Lemma decode_fields_go_encode (fs : list Field) (fuel : nat) :
  Forall sized fs ->
  (length (encode_fields fs) <= fuel)%nat ->
  decode_fields_go fuel (encode_fields fs) = Some fs.
Proof.
  revert fuel. induction fs as [|f fs IH]; intros fuel Hsized Hfuel.
  - by destruct fuel.
  - apply Forall_cons in Hsized as [Hf Hfs].
    unfold encode_fields in *. simpl flat_map in *.
    rewrite length_app in Hfuel.
    pose proof (encode_field_nonempty f) as Hne.
    destruct fuel as [|fuel]; [lia|].
    destruct (encode_field f ++ flat_map encode_field fs) as [|b bs] eqn:E.
    { apply (f_equal length) in E. rewrite length_app in E. simpl in E. lia. }
    simpl decode_fields_go. rewrite <- E.
    rewrite decode_encode_field by done. simpl.
    rewrite IH by (done || lia). done.
Qed.

Lemma decode_encode_fields (fs : list Field) :
  Forall sized fs -> decode_fields (encode_fields fs) = Some fs.
Proof. intros H. by apply decode_fields_go_encode. Qed.

End WireFacts.

Section RequestFacts.

Import Wire.

Context {V : Type}.
Variable encode_value : V -> list byte.
Variable decode_value : list byte -> option V.

(** The values of [params] survive their own encoding. *)
Hypothesis value_round_trip : forall v, decode_value (encode_value v) = Some v.

Implicit Types (r : QueryRequest.t V) (entries : list (string * V)).
Implicit Types (kv : string * V) (m : gmap string V).

Lemma decode_encode_entry kv :
  decode_entry decode_value (encode_entry encode_value kv) = Some kv.
Proof.
  unfold decode_entry, encode_entry.
  rewrite decode_encode_fields by (repeat constructor). simpl.
  rewrite utf8_round_trip. simpl. rewrite value_round_trip. simpl.
  by destruct kv.
Qed.

(** The entries of the map, merged in the order they arrive. *)
Lemma merge_entries entries r :
  fold_left (merge_request_field decode_value)
            (map (fun kv => (2, Len (encode_entry encode_value kv))) entries)
            (Some r)
  = Some (QueryRequest.mk (QueryRequest.query r)
            (fold_left (fun m kv => <[kv.1 := kv.2]> m) entries (QueryRequest.params r))
            (QueryRequest.log r)).
Proof.
  revert r. induction entries as [|[k v] entries IH]; intros r.
  - by destruct r.
  - simpl. rewrite decode_encode_entry. simpl. by rewrite IH.
Qed.

Lemma fold_insert_union entries m :
  fold_left (fun m kv => <[kv.1 := kv.2]> m) entries m
  = list_to_map (reverse entries) ∪ m.
Proof.
  revert m. induction entries as [|[k v] entries IH]; intros m; simpl.
  - by rewrite (left_id_L ∅ (∪)).
  - rewrite IH, reverse_cons, list_to_map_app. simpl.
    rewrite <- (assoc_L (∪)). f_equal.
    rewrite insert_empty. apply insert_union_singleton_l.
Qed.

Lemma fold_insert_list_to_map entries :
  NoDup (entries.*1) ->
  fold_left (fun m kv => <[kv.1 := kv.2]> m) entries ∅ = list_to_map entries.
Proof.
  intros Hnodup. rewrite fold_insert_union, (right_id_L ∅ (∪)).
  apply list_to_map_proper.
  - by rewrite fmap_reverse, reverse_Permutation.
  - apply reverse_Permutation.
Qed.

(** What the receiving side makes of a request sent with its entries in
    the order [entries]. *)
Lemma decode_encode_with query entries log :
  NoDup (entries.*1) ->
  decode decode_value (encode_with encode_value query entries log)
  = Some (QueryRequest.mk query (list_to_map entries) log).
Proof.
  intros Hnodup. unfold decode, encode_with, request_fields.
  rewrite decode_encode_fields.
  2:{ apply Forall_app. split; [by destruct (truthy query); repeat constructor|].
      apply Forall_app. split; [|by destruct log; repeat constructor].
      apply Forall_forall. intros f Hf. apply list_elem_of_fmap in Hf as (kv & -> & _).
      done. }
  simpl. rewrite !fold_left_app.
  match goal with
  | |- context [@fold_left ?A ?B ?f ?fs (Some ?r0)] =>
      assert (@fold_left A B f fs (Some r0) = Some (QueryRequest.mk query ∅ false)) as ->
  end.
  { destruct (truthy query) eqn:E.
    - cbn [fold_left merge_request_field mbind option_bind].
      by rewrite utf8_round_trip.
    - destruct query; [done|discriminate E]. }
  rewrite merge_entries. simpl.
  rewrite fold_insert_list_to_map by done.
  by destruct log.
Qed.

(** A request sent with its entries in the map's own order. *)
Lemma decode_encode r : decode decode_value (encode encode_value r) = Some r.
Proof.
  unfold encode.
  rewrite decode_encode_with by apply NoDup_fst_map_to_list.
  rewrite list_to_map_to_list. by destruct r.
Qed.

(** C7: a request sent with the entries of its [params] in any order is
    decoded, on the receiving side, to the same request: in particular to
    a [params] map with exactly the same key/value pairs. The values are
    any type whose own encoding can be decoded back. *)
Theorem params_survive_the_wire r entries :
  entries ≡ₚ map_to_list (QueryRequest.params r) ->
  decode decode_value
         (encode_with encode_value (QueryRequest.query r) entries (QueryRequest.log r))
  = Some r.
Proof.
  intros Hperm.
  assert (NoDup (entries.*1)) as Hnodup.
  { rewrite Hperm. apply NoDup_fst_map_to_list. }
  rewrite decode_encode_with by done.
  rewrite (list_to_map_proper _ _ Hnodup Hperm), list_to_map_to_list.
  by destruct r.
Qed.

End RequestFacts.

(* ===================================================================== *)
(** * The scenarios, run *)
(* ===================================================================== *)

Section Runs.

Import Scenario.

Example scenario_A_output :
  stdout (fst (run (delivers response_A)))
  = ["Affected Nodes: 1"; "Affected Relationships: 0"; "Mutated: True";
     String LF "Results:"].
Proof. reflexivity. Qed.

Example scenario_B_output :
  stdout (fst (run (delivers response_B)))
  = ["Server Error: syntax error: unexpected token"].
Proof. reflexivity. Qed.

Example scenario_C_output :
  stdout (fst (run (delivers response_C)))
  = ["Affected Nodes: 0"; "Affected Relationships: 0"; "Mutated: False";
     String LF "Results:";
     "[Node] ID: 1, Label: Note, Meta: {'name': 'github'}"].
Proof. reflexivity. Qed.

Example scenario_D_output :
  stdout (fst (run (fails fault_D)))
  = ["RPC failed: StatusCode.UNAVAILABLE - failed to connect to all addresses"].
Proof. reflexivity. Qed.

Example mixed_rows_output :
  printed_for string mixed_rows
  = ["[Node] ID: 1, Label: Note, Meta: {'name': 'github'}";
     "[Rel] ID: 7, 1 -> 2, Label: LINKS, Meta: {'since': '2024', 'via': " +:+ chr DQUOTE
       +:+ "it's" +:+ chr DQUOTE +:+ "}";
     "[Node] ID: 1, Label: Note, Meta: {'name': 'github'}";
     "[Rel] ID: 7, 1 -> 2, Label: LINKS, Meta: {'since': '2024', 'via': " +:+ chr DQUOTE
       +:+ "it's" +:+ chr DQUOTE +:+ "}";
     "[Info] 2 rows"].
Proof. reflexivity. Qed.

(** A mapping never yields a key twice; if it did, [dict] would keep the
    first place and the last value. *)
Example dict_of_repeated_key :
  dict_of [("a", "1"); ("b", "2"); ("a", "3")] = [("a", "3"); ("b", "2")].
Proof. reflexivity. Qed.

(** Under the other convention a write that changed nothing is mutating,
    with both counters at zero. *)
Example idle_write_under_the_other_convention :
  QueryResponse.mutated (Server.respond (Server.mkConvention true) idle_write) = true
  /\ QueryResponse.affected_nodes (Server.respond (Server.mkConvention true) idle_write) = 0
  /\ QueryResponse.affected_relationships
       (Server.respond (Server.mkConvention true) idle_write) = 0.
Proof. done. Qed.

Example request_on_the_wire :
  map Byte.to_N
      (Wire.encode_with Wire.encode_text "hi" [("a", "b")] true)
  = [10; 2; 104; 105; 18; 6; 10; 1; 97; 18; 1; 98; 24; 1].
Proof. reflexivity. Qed.

Example varint_300 : map Byte.to_N (Wire.encode_varint 300) = [172; 2].
Proof. reflexivity. Qed.

(** *** The theorems, at the scenarios *)

(** C8, as it was stated: no behaviour of the other end makes a run open
    anything but the insecure channel to the literal [localhost:50051];
    [run] takes no endpoint and reads none, so the endpoint cannot be
    configured. *)
Lemma endpoint_is_not_configurable :
  ~ exists remote : grpc.Channel -> QueryRequest.t string
                    -> grpc.RpcError + QueryResponse.t string string,
      opened_channels (fst (run remote))
      <> [grpc.mkChannel "localhost:50051" grpc.Insecure].
Proof.
  intros [remote Hother]. apply Hother. apply run_opens_the_channel.
Qed.

Lemma server_error_is_reported_alone_witness :
  delivers response_B the_channel (the_request string) = inr response_B
  /\ QueryResponse.error response_B <> ""
  /\ run (delivers response_B)
     = ([OpenChannel the_channel;
         Call the_channel "Execute" (the_request string);
         Print "Server Error: syntax error: unexpected token"],
        Returned tt).
Proof.
  split; [reflexivity|]. split; [discriminate|].
  exact (proj1 (server_error_is_reported_alone
                  (delivers response_B) response_B eq_refl
                  ltac:(discriminate))).
Defined.

Lemma transport_failure_is_reported_apart_witness :
  fails fault_D the_channel (the_request string) = inl fault_D
  /\ run (fails fault_D)
     = ([OpenChannel the_channel;
         Call the_channel "Execute" (the_request string);
         Print "RPC failed: StatusCode.UNAVAILABLE - failed to connect to all addresses"],
        Returned tt).
Proof.
  split; [reflexivity|].
  exact (proj1 (transport_failure_is_reported_apart (fails fault_D) fault_D eq_refl)).
Defined.

Lemma row_is_rendered_by_its_variant_witness :
  delivers response_awkward the_channel (the_request string) = inr response_awkward
  /\ QueryResponse.error response_awkward = ""
  /\ QueryResponse.rows response_awkward
     = [Row.mk (Some node_C) None None]
         ++ Row.mk (Some node_awkward) None None
         :: [Row.mk None None (Some "2 rows")]
  /\ Row.populated (Row.mk (Some node_awkward) None None) = 1%nat
  /\ exists line,
       stdout (fst (run (delivers response_awkward)))
       = [ "Affected Nodes: 0"; "Affected Relationships: 0"; "Mutated: False";
           String LF "Results:";
           "[Node] ID: 1, Label: Note, Meta: {'name': 'github'}";
           line;
           "[Info] 2 rows" ]
       /\ contains "9" line
       /\ contains "Note" line
       /\ contains "'path': 'C:\\tmp'" line
       /\ unrepr "'C:\\tmp'" = Some "C:\tmp"
       /\ contains "'body': 'a\nb'" line
       /\ unrepr "'a\nb'" = Some (String "a" (String LF "b")).
Proof.
  split; [reflexivity|]. split; [reflexivity|]. split; [reflexivity|].
  split; [reflexivity|].
  destruct (row_is_rendered_by_its_variant
              (delivers response_awkward) response_awkward
              [Row.mk (Some node_C) None None]
              (Row.mk (Some node_awkward) None None)
              [Row.mk None None (Some "2 rows")]
              eq_refl eq_refl eq_refl eq_refl)
    as (line & _ & Hout & Hnode & _).
  exists line. split; [exact Hout|].
  destruct (Hnode node_awkward eq_refl) as (_ & Hid & Hlabel & _ & _ & Hitems).
  assert (NoDup ((Node.metadata node_awkward).*1)) as Hnodup.
  { apply (bool_decide_unpack _). reflexivity. }
  destruct (Hitems Hnodup "path" "C:\tmp"
              ltac:(apply list_elem_of_further, list_elem_of_here))
    as (Hpath & _ & Hpath_back).
  destruct (Hitems Hnodup "body" (String "a" (String LF "b"))
              ltac:(apply list_elem_of_further, list_elem_of_further, list_elem_of_here))
    as (Hbody & _ & Hbody_back).
  split; [exact Hid|]. split; [exact Hlabel|].
  split; [exact Hpath|]. split; [exact Hpath_back|].
  split; [exact Hbody | exact Hbody_back].
Defined.

Lemma empty_row_is_skipped_witness :
  delivers response_mixed the_channel (the_request string) = inr response_mixed
  /\ QueryResponse.error response_mixed = ""
  /\ QueryResponse.rows response_mixed
     = [Row.mk (Some node_C) None None]
         ++ empty_row
         :: [Row.mk None (Some edge) None; crowded_row; edge_and_info;
             Row.mk None None (Some "2 rows")]
  /\ Row.populated empty_row = 0%nat
  /\ print_row string empty_row = ([], Returned tt)
  /\ snd (run (delivers response_mixed)) = Returned tt
  /\ stdout (fst (run (delivers response_mixed)))
     = [ "Affected Nodes: 0"; "Affected Relationships: 0"; "Mutated: False";
         String LF "Results:";
         node_line node_C;
         relationship_line edge; node_line node_C; relationship_line edge;
         "[Info] 2 rows" ].
Proof.
  split; [reflexivity|]. split; [reflexivity|]. split; [reflexivity|].
  split; [reflexivity|].
  destruct (empty_row_is_skipped
              (delivers response_mixed) response_mixed
              [Row.mk (Some node_C) None None] empty_row
              [Row.mk None (Some edge) None; crowded_row; edge_and_info;
               Row.mk None None (Some "2 rows")]
              eq_refl eq_refl eq_refl eq_refl)
    as (Hrow & Hret & _ & _ & Hout).
  split; [exact Hrow|]. split; [exact Hret | exact Hout].
Defined.

Lemma error_response_is_void_witness :
  QueryResponse.error (Server.respond (Server.mkConvention false) malformed) <> ""
  /\ QueryResponse.rows (Server.respond (Server.mkConvention false) malformed) = []
  /\ QueryResponse.affected_nodes (Server.respond (Server.mkConvention false) malformed) = 0
  /\ QueryResponse.affected_relationships
       (Server.respond (Server.mkConvention false) malformed) = 0.
Proof.
  split; [discriminate|].
  apply (error_response_is_void (Server.mkConvention false) malformed).
  discriminate.
Defined.

Lemma params_survive_the_wire_witness :
  (forall v, Wire.decode_text (Wire.encode_text v) = Some v)
  /\ entries_reordered ≡ₚ map_to_list (QueryRequest.params request_with_params)
  /\ Wire.decode Wire.decode_text
       (Wire.encode_with Wire.encode_text
          (QueryRequest.query request_with_params) entries_reordered
          (QueryRequest.log request_with_params))
     = Some request_with_params.
Proof.
  assert (entries_reordered ≡ₚ map_to_list (QueryRequest.params request_with_params))
    as Hperm.
  { change (map_to_list (QueryRequest.params request_with_params))
      with [("name", "github"); ("limit", "10")].
    apply perm_swap. }
  split; [exact utf8_round_trip|]. split; [exact Hperm|].
  exact (params_survive_the_wire Wire.encode_text Wire.decode_text utf8_round_trip
           request_with_params entries_reordered Hperm).
Defined.

Lemma empty_error_is_success_witness :
  delivers response_A_rows the_channel (the_request string) = inr response_A_rows
  /\ QueryResponse.error_field response_A_rows = Some ""
  /\ stdout (fst (run (delivers response_A_rows)))
     = [ "Affected Nodes: 1"; "Affected Relationships: 0"; "Mutated: True";
         String LF "Results:";
         "[Node] ID: 1, Label: Note, Meta: {'name': 'github'}";
         relationship_line edge;
         "[Node] ID: 1, Label: Note, Meta: {'name': 'github'}";
         relationship_line edge;
         "[Info] 2 rows" ].
Proof.
  split; [reflexivity|]. split; [reflexivity|].
  exact (proj2 (proj2 (proj2
           (empty_error_is_success (delivers response_A_rows) response_A_rows eq_refl)))
           eq_refl).
Defined.

Lemma first_populated_variant_wins_witness :
  delivers response_mixed the_channel (the_request string) = inr response_mixed
  /\ QueryResponse.error response_mixed = ""
  /\ QueryResponse.rows response_mixed
     = [Row.mk (Some node_C) None None; empty_row; Row.mk None (Some edge) None]
         ++ crowded_row :: [edge_and_info; Row.mk None None (Some "2 rows")]
  /\ (2 <= Row.populated crowded_row)%nat
  /\ exists line,
       stdout (fst (run (delivers response_mixed)))
       = header response_mixed
           ++ printed_for string
                [Row.mk (Some node_C) None None; empty_row; Row.mk None (Some edge) None]
           ++ line
           :: printed_for string [edge_and_info; Row.mk None None (Some "2 rows")]
       /\ line = node_line node_C.
Proof.
  split; [reflexivity|]. split; [reflexivity|]. split; [reflexivity|].
  assert (2 <= Row.populated crowded_row)%nat as Hmany by (vm_compute; lia).
  split; [exact Hmany|].
  destruct (first_populated_variant_wins
              (delivers response_mixed) response_mixed
              [Row.mk (Some node_C) None None; empty_row; Row.mk None (Some edge) None]
              crowded_row
              [edge_and_info; Row.mk None None (Some "2 rows")]
              eq_refl eq_refl eq_refl Hmany)
    as (line & Hout & Hnode & _).
  exists line. split; [exact Hout | exact (Hnode node_C eq_refl)].
Defined.

End Runs.

(* ===================================================================== *)
(** * Further properties of the client *)
(* ===================================================================== *)

Section MoreClientFacts.

Context {V Id Label : Type} `{!Str Id, !Str Label}.

Implicit Types (remote : grpc.Channel -> QueryRequest.t V
                         -> grpc.RpcError + QueryResponse.t Id Label).
Implicit Types (response : QueryResponse.t Id Label) (row : Row.t Id Label).
Implicit Types (rows : list (Row.t Id Label)).

Local Abbreviation the_request := (the_request V).

(** *** Text and numbers *)

Lemma append_cancel (p a b : string) : p +:+ a = p +:+ b -> a = b.
Proof.
  induction p as [|c p IH]; [done|].
  change (String c (p +:+ a) = String c (p +:+ b) -> a = b).
  intros [=]. by apply IH.
Qed.

Lemma str_int_inj (m n : N) : str m = str n -> m = n.
Proof.
  unfold str, str_int. intros H.
  assert (N.to_uint m = N.to_uint n) as Huint.
  { apply (f_equal NilEmpty.uint_of_string) in H.
    rewrite !NilEmpty.usu in H. congruence. }
  apply (f_equal N.of_uint) in Huint.
  by rewrite !DecimalN.Unsigned.of_to in Huint.
Qed.

Lemma singleton_inj {A} (x y : A) : [x] = [y] -> x = y.
Proof. by intros [=]. Qed.

Lemma str_bool_inj (a b : bool) : str a = str b -> a = b.
Proof. by destruct a, b. Qed.

Lemma status_line_inj (c1 c2 : grpc.StatusCode) (d1 d2 : string) :
  str c1 +:+ " - " +:+ d1 = str c2 +:+ " - " +:+ d2 -> c1 = c2 /\ d1 = d2.
Proof.
  intros H. destruct c1, c2; vm_compute in H; by simplify_eq.
Qed.

(** *** Events *)

Lemma print_row_only_prints row :
  fst (print_row V row) = map Print (stdout (fst (print_row V row))).
Proof.
  unfold print_row.
  by destruct (Row.node row), (Row.relationship row), (Row.info row).
Qed.

Lemma for_each_only_prints rows :
  fst (for_each (V:=V) rows (print_row V))
  = map Print (stdout (fst (for_each (V:=V) rows (print_row V)))).
Proof.
  induction rows as [|row rows IH]; [done|].
  rewrite for_each_cons by apply print_row_returns. simpl.
  rewrite stdout_app, map_app. by rewrite <- print_row_only_prints, <- IH.
Qed.

Lemma consume_only_prints response :
  fst (consume V response) = map Print (stdout (fst (consume V response))).
Proof.
  unfold consume.
  destruct (truthy (QueryResponse.error response)); [done|].
  pose proof (for_each_only_prints (QueryResponse.rows response)) as Hrows.
  pose proof (for_each_print_row_returns (V:=V) (QueryResponse.rows response)) as Hret.
  destruct (for_each (QueryResponse.rows response) (print_row V)) as [tr o].
  simpl in *. subst o. simpl. by rewrite <- Hrows.
Qed.

Lemma printed_for_length rows :
  length (printed_for V rows) = length (printing_rows rows).
Proof.
  unfold printing_rows.
  induction rows as [|row rows IH]; [done|].
  rewrite printed_for_cons, length_app, IH, filter_cons.
  pose proof (populated_eq row) as Hpop. unfold print_row.
  destruct (Row.node row), (Row.relationship row), (Row.info row);
    simpl in Hpop; case_decide; simpl; lia.
Qed.

Lemma printable_no_line_break (s : string) :
  printable_text s = true -> occurs LF s = false.
Proof.
  induction s as [|c s IH]; [done|].
  simpl. intros [Hc Hs]%andb_true_iff. rewrite (IH Hs), orb_false_r.
  destruct (Ascii.eqb LF c) eqn:E; [|done].
  apply Ascii.eqb_eq in E. by subst c.
Qed.

(** *** What every run does *)

(** X1: no [grpc.RpcError] leaves [run]: whatever the call to [Execute]
    does, raise the error or return any response at all, the run ends
    normally. *)
Theorem run_never_raises remote : snd (run remote) = Returned tt.
Proof.
  destruct (remote the_channel the_request) as [e|response] eqn:E.
  - by rewrite (run_raised _ _ E).
  - rewrite (run_delivered _ _ E). apply consume_returns.
Qed.

(** X2: a run opens one channel, makes one call, and from then on only
    prints: there is no second call after a failure, no second channel,
    and nothing is printed before the call. At least one line is always
    printed. *)
Theorem run_is_one_call_then_prints remote :
  fst (run remote)
  = OpenChannel the_channel
    :: Call the_channel "Execute" the_request
    :: map Print (stdout (fst (run remote)))
  /\ stdout (fst (run remote)) <> [].
Proof.
  destruct (remote the_channel the_request) as [e|response] eqn:E.
  - by rewrite (run_raised _ _ E).
  - rewrite (run_delivered _ _ E). simpl. rewrite <- consume_only_prints.
    split; [done|].
    destruct (truthy (QueryResponse.error response)) eqn:Herr.
    + by rewrite consume_error.
    + destruct (consume_success (V:=V) response Herr) as [_ ->]. done.
Qed.

Lemma line_breaks_app (a b : string) :
  line_breaks (a +:+ b) = (line_breaks a + line_breaks b)%nat.
Proof.
  induction a as [|c a IH]; [done|].
  change (((if Ascii.eqb c LF then 1 else 0) + line_breaks (a +:+ b))%nat
          = ((if Ascii.eqb c LF then 1 else 0) + line_breaks a + line_breaks b)%nat).
  rewrite IH. lia.
Qed.

Lemma line_breaks_str_int (n : N) : line_breaks (str n) = 0%nat.
Proof.
  unfold str, str_int. generalize (N.to_uint n). intros d.
  induction d; simpl; done.
Qed.

Lemma line_breaks_str_bool (b : bool) : line_breaks (str b) = 0%nat.
Proof. by destruct b. Qed.

Lemma line_breaks_written (texts : list string) :
  line_breaks (written (V:=V) (map Print texts))
  = (length texts + sum_list (line_breaks <$> texts))%nat.
Proof.
  induction texts as [|text texts IH]; [done|].
  simpl. rewrite line_breaks_app. simpl. rewrite IH. unfold fmap. lia.
Qed.

Lemma no_line_breaks (texts : list string) :
  Forall (fun text => line_breaks text = 0%nat) texts ->
  sum_list (line_breaks <$> texts) = 0%nat.
Proof.
  intros Hplain. induction Hplain as [|text texts Htext _ IH]; [done|].
  simpl. unfold fmap in *. by rewrite Htext, IH.
Qed.

(** X3: the standard output of a run that got a response with an empty
    [error] has five lines of header (the fourth [print] starts with a
    line break), and then, for each row with a variant populated, one
    line and as many more as the text of the row holds line breaks. When
    no row text holds a line break, that is five lines and one per such
    row. *)
Theorem success_writes_five_lines_and_the_rows remote response :
  remote the_channel the_request = inr response ->
  QueryResponse.error response = "" ->
  line_breaks (written (fst (run remote)))
  = (5 + length (printing_rows (QueryResponse.rows response))
     + sum_list (line_breaks <$> flat_map row_lines (QueryResponse.rows response)))%nat
  /\ (Forall (fun text => line_breaks text = 0%nat)
             (flat_map row_lines (QueryResponse.rows response)) ->
      line_breaks (written (fst (run remote)))
      = (5 + length (printing_rows (QueryResponse.rows response)))%nat).
Proof.
  intros Hr He.
  assert (line_breaks (written (fst (run remote)))
          = (5 + length (printing_rows (QueryResponse.rows response))
             + sum_list (line_breaks <$> flat_map row_lines (QueryResponse.rows response)))%nat)
    as Hlines.
  { rewrite run_trace. simpl written. rewrite line_breaks_written.
    rewrite (stdout_run_success _ _ Hr He), printed_for_row_lines.
    rewrite length_app, fmap_app, sum_list_with_app.
    rewrite <- printed_for_length, printed_for_row_lines.
    unfold header. simpl.
    rewrite !line_breaks_app, !line_breaks_str_int, line_breaks_str_bool.
    simpl. lia. }
  split; [exact Hlines|].
  intros Hplain. rewrite Hlines.
  rewrite (no_line_breaks _ Hplain). lia.
Qed.

(** X4: a response with a non-empty [error] and a response with an empty
    [error] never give the same output. *)
Theorem semantic_failure_and_success_print_apart
    remote1 remote2 response1 response2 :
  remote1 the_channel the_request = inr response1 ->
  remote2 the_channel the_request = inr response2 ->
  QueryResponse.error response1 <> "" ->
  QueryResponse.error response2 = "" ->
  stdout (fst (run remote1)) <> stdout (fst (run remote2)).
Proof.
  intros Hr1 Hr2 He1 He2.
  rewrite (run_server_error _ _ Hr1 He1), (stdout_run_success _ _ Hr2 He2).
  unfold header. simpl. intros [=].
Qed.

(** X5: the output of a successful run tells the counters and the flag:
    two responses with an empty [error] whose runs print the same have
    the same [affected_nodes], the same [affected_relationships] and the
    same [mutated]. *)
Theorem header_tells_the_counters remote1 remote2 response1 response2 :
  remote1 the_channel the_request = inr response1 ->
  remote2 the_channel the_request = inr response2 ->
  QueryResponse.error response1 = "" ->
  QueryResponse.error response2 = "" ->
  stdout (fst (run remote1)) = stdout (fst (run remote2)) ->
  QueryResponse.affected_nodes response1 = QueryResponse.affected_nodes response2
  /\ QueryResponse.affected_relationships response1
     = QueryResponse.affected_relationships response2
  /\ QueryResponse.mutated response1 = QueryResponse.mutated response2.
Proof.
  intros Hr1 Hr2 He1 He2.
  rewrite (stdout_run_success _ _ Hr1 He1), (stdout_run_success _ _ Hr2 He2).
  unfold header. simpl. intros [= Hn Hr Hm _].
  apply append_cancel in Hn, Hr, Hm.
  split; [by apply str_int_inj|]. split; [by apply str_int_inj|by apply str_bool_inj].
Qed.

(** X6: the output of a semantic failure tells the error text: two
    responses with a non-empty [error] whose runs print the same have the
    same [error]. *)
Theorem error_line_tells_the_error remote1 remote2 response1 response2 :
  remote1 the_channel the_request = inr response1 ->
  remote2 the_channel the_request = inr response2 ->
  QueryResponse.error response1 <> "" ->
  QueryResponse.error response2 <> "" ->
  stdout (fst (run remote1)) = stdout (fst (run remote2)) ->
  QueryResponse.error response1 = QueryResponse.error response2.
Proof.
  intros Hr1 Hr2 He1 He2.
  rewrite (run_server_error _ _ Hr1 He1), (run_server_error _ _ Hr2 He2).
  simpl. by intros H%singleton_inj%append_cancel.
Qed.

(** X7: the output of a transport failure tells the fault: two faults
    whose runs print the same have the same status code and the same
    details. *)
Theorem rpc_line_tells_the_fault remote1 remote2 e1 e2 :
  remote1 the_channel the_request = inl e1 ->
  remote2 the_channel the_request = inl e2 ->
  stdout (fst (run remote1)) = stdout (fst (run remote2)) ->
  e1 = e2.
Proof.
  intros Hr1 Hr2.
  rewrite (run_raised _ _ Hr1), (run_raised _ _ Hr2).
  simpl. intros H%singleton_inj%append_cancel.
  apply status_line_inj in H as [Hc Hd].
  destruct e1, e2. simpl in *. by subst.
Qed.

(** *** The lines of the rows *)

(** X8: the line of a row tells which variant was printed: a node's line,
    a relationship's line and an informational line are never equal; and
    an informational line tells its text. *)
Theorem row_line_tells_the_variant
    (n : Node.t Id Label) (r : Relationship.t Id Label) (i i' : string) :
  node_line n <> relationship_line r
  /\ node_line n <> info_line i
  /\ relationship_line r <> info_line i
  /\ (info_line i = info_line i' -> i = i').
Proof.
  unfold node_line, relationship_line, info_line.
  split_and!; [by intros [=] | by intros [=] | by intros [=] | apply append_cancel].
Qed.

Lemma repr_dict_printable (d : dict) : printable_text (repr_dict d) = true.
Proof.
  assert (Happ : forall a b, printable_text (a +:+ b)
                             = printable_text a && printable_text b).
  { intros a b. induction a as [|c a IH]; [done|].
    change (isprintable c && printable_text (a +:+ b)
            = isprintable c && printable_text a && printable_text b).
    by rewrite IH, andb_assoc. }
  assert (Hchar : forall q c, q = SQUOTE \/ q = DQUOTE ->
                              printable_text (repr_char q c) = true).
  { intros q c [-> | ->];
      by destruct c as [[] [] [] [] [] [] [] []]. }
  assert (Hchars : forall q s, q = SQUOTE \/ q = DQUOTE ->
                               printable_text (repr_chars q s) = true).
  { intros q s Hq. induction s as [|c s IH]; [done|].
    simpl. by rewrite Happ, Hchar, IH. }
  assert (Hstr : forall s, printable_text (repr_str s) = true).
  { intros s. unfold repr_str.
    destruct (occurs SQUOTE s && negb (occurs DQUOTE s)).
    - change (isprintable DQUOTE
              && printable_text (repr_chars DQUOTE s +:+ chr DQUOTE) = true).
      rewrite Happ, Hchars by auto. done.
    - change (isprintable SQUOTE
              && printable_text (repr_chars SQUOTE s +:+ chr SQUOTE) = true).
      rewrite Happ, Hchars by auto. done. }
  assert (Hjoin : forall l, Forall (fun s => printable_text s = true) l ->
                            printable_text (join ", " l) = true).
  { intros l Hl. induction Hl as [|s l Hs Hl IH]; [done|].
    destruct l as [|s' l]; [done|].
    change (printable_text (s +:+ ", " +:+ join ", " (s' :: l)) = true).
    by rewrite !Happ, Hs, IH. }
  unfold repr_dict. rewrite !Happ, Hjoin; [done|].
  apply Forall_forall. intros s (kv & -> & _)%list_elem_of_fmap.
  unfold repr_item. by rewrite !Happ, !Hstr.
Qed.

(** X10: for a row with a node populated, whose metadata has distinct
    keys, the loop prints one text, and what follows [Meta: ] in it has
    printable characters only and no line break, even when keys or values
    hold line breaks, tabs or control characters: those are written as
    escapes, and every item is still shown, as literals that read back as
    the key and the value. Text here is text of code points below 256. *)
Theorem node_metadata_is_printed_on_one_line row (n : Node.t Id Label) :
  Row.node row = Some n ->
  NoDup ((Node.metadata n).*1) ->
  exists meta,
    print_row V row
    = ([Print ("[Node] ID: " +:+ str (Node.id n) +:+ ", Label: "
               +:+ str (Node.label n) +:+ ", Meta: " +:+ meta)],
       Returned tt)
    /\ printable_text meta = true
    /\ occurs LF meta = false
    /\ forall k v, (k, v) ∈ Node.metadata n -> shows_item k v meta.
Proof.
  intros Hnode Hnodup. exists (repr_dict (dict_of (Node.metadata n))).
  split; [by unfold print_row; rewrite Hnode|].
  pose proof (repr_dict_printable (dict_of (Node.metadata n))) as Hprintable.
  split; [done|]. split; [by apply printable_no_line_break|].
  intros k v Hkv. apply (item_shown _ _ _ _ Hnodup Hkv), contains_refl.
Qed.

(** X11: the items of a metadata map have distinct keys, and then the
    line of a node shows every item once, in the order the map gives
    them, as [key: value] pairs joined by a comma and a space between
    braces, each key and each value a literal that reads back as the
    text itself. *)
Theorem metadata_items_are_all_shown (n : Node.t Id Label) :
  NoDup ((Node.metadata n).*1) ->
  node_line n
  = "[Node] ID: " +:+ str (Node.id n) +:+ ", Label: " +:+ str (Node.label n)
    +:+ ", Meta: {" +:+ join ", " (map repr_item (Node.metadata n)) +:+ "}"
  /\ forall k v, (k, v) ∈ Node.metadata n ->
       repr_item (k, v) = repr_str k +:+ ": " +:+ repr_str v
       /\ unrepr (repr_str k) = Some k
       /\ unrepr (repr_str v) = Some v.
Proof.
  intros Hnodup. split.
  - unfold node_line, repr_dict. by rewrite dict_of_unique_keys.
  - intros k v _. split; [done|]. split; apply unrepr_repr_str.
Qed.

End MoreClientFacts.

(** X9: the line of a node does not tell its fields apart: two nodes with
    different [id] and [label] can print the same line, the separator
    between the fields being text the fields may hold themselves. *)
Theorem node_line_is_ambiguous :
  exists n1 n2 : Node.t string string,
    Node.id n1 <> Node.id n2
    /\ Node.label n1 <> Node.label n2
    /\ node_line n1 = node_line n2.
Proof.
  exists (Node.mk "1, Label: a" "b" []), (Node.mk "1" "a, Label: b" []).
  by split_and!.
Qed.

(** *** The further properties, at the scenarios *)

Section MoreRuns.

Import Scenario.

Lemma success_writes_five_lines_and_the_rows_witness :
  delivers response_mixed the_channel (the_request string) = inr response_mixed
  /\ QueryResponse.error response_mixed = ""
  /\ line_breaks (written (fst (run (delivers response_mixed)))) = 10%nat.
Proof.
  split; [reflexivity|]. split; [reflexivity|].
  exact (proj1 (success_writes_five_lines_and_the_rows
                  (delivers response_mixed) response_mixed eq_refl eq_refl)).
Defined.

Lemma node_metadata_is_printed_on_one_line_witness :
  Row.node (Row.mk (Some node_awkward) None None) = Some node_awkward
  /\ NoDup ((Node.metadata node_awkward).*1)
  /\ exists meta,
       print_row string (Row.mk (Some node_awkward) None None)
       = ([Print ("[Node] ID: 9, Label: Note, Meta: " +:+ meta)], Returned tt)
       /\ occurs LF meta = false
       /\ contains "'body': 'a\nb'" meta.
Proof.
  assert (NoDup ((Node.metadata node_awkward).*1)) as Hnodup.
  { apply (bool_decide_unpack _). reflexivity. }
  split; [reflexivity|]. split; [exact Hnodup|].
  destruct (node_metadata_is_printed_on_one_line (V:=string)
              (Row.mk (Some node_awkward) None None) node_awkward eq_refl Hnodup)
    as (meta & Hprint & _ & Hline & Hitems).
  exists meta. split; [exact Hprint|]. split; [exact Hline|].
  exact (proj1 (Hitems "body" (String "a" (String LF "b"))
                  ltac:(apply list_elem_of_further, list_elem_of_further,
                        list_elem_of_here))).
Defined.

Lemma semantic_failure_and_success_print_apart_witness :
  delivers response_B the_channel (the_request string) = inr response_B
  /\ delivers response_A the_channel (the_request string) = inr response_A
  /\ QueryResponse.error response_B <> ""
  /\ QueryResponse.error response_A = ""
  /\ stdout (fst (run (delivers response_B))) <> stdout (fst (run (delivers response_A))).
Proof.
  split; [reflexivity|]. split; [reflexivity|]. split; [discriminate|].
  split; [reflexivity|].
  exact (semantic_failure_and_success_print_apart
           (delivers response_B) (delivers response_A) response_B response_A
           eq_refl eq_refl ltac:(discriminate) eq_refl).
Defined.

Lemma header_tells_the_counters_witness :
  QueryResponse.error response_C = ""
  /\ QueryResponse.error
       (QueryResponse.set_rows [Row.mk (Some node_C) None None; empty_row] response_C) = ""
  /\ stdout (fst (run (delivers response_C)))
     = stdout (fst (run (delivers
         (QueryResponse.set_rows [Row.mk (Some node_C) None None; empty_row] response_C))))
  /\ QueryResponse.affected_nodes response_C
     = QueryResponse.affected_nodes
         (QueryResponse.set_rows [Row.mk (Some node_C) None None; empty_row] response_C).
Proof.
  split; [reflexivity|]. split; [reflexivity|]. split; [reflexivity|].
  exact (proj1 (header_tells_the_counters
                  (delivers response_C)
                  (delivers (QueryResponse.set_rows
                               [Row.mk (Some node_C) None None; empty_row] response_C))
                  response_C
                  (QueryResponse.set_rows
                     [Row.mk (Some node_C) None None; empty_row] response_C)
                  eq_refl eq_refl eq_refl eq_refl eq_refl)).
Defined.

Lemma error_line_tells_the_error_witness :
  QueryResponse.error response_B <> ""
  /\ QueryResponse.error (QueryResponse.set_rows mixed_rows response_B) <> ""
  /\ stdout (fst (run (delivers response_B)))
     = stdout (fst (run (delivers (QueryResponse.set_rows mixed_rows response_B))))
  /\ QueryResponse.error response_B
     = QueryResponse.error (QueryResponse.set_rows mixed_rows response_B).
Proof.
  split; [discriminate|]. split; [discriminate|]. split; [reflexivity|].
  exact (error_line_tells_the_error
           (delivers response_B)
           (delivers (QueryResponse.set_rows mixed_rows response_B))
           response_B (QueryResponse.set_rows mixed_rows response_B)
           eq_refl eq_refl ltac:(discriminate) ltac:(discriminate) eq_refl).
Defined.

Lemma rpc_line_tells_the_fault_witness :
  fails fault_D the_channel (the_request string) = inl fault_D
  /\ stdout (fst (run (fails fault_D))) = stdout (fst (run (fails fault_D)))
  /\ fault_D = fault_D.
Proof.
  split; [reflexivity|]. split; [reflexivity|].
  exact (rpc_line_tells_the_fault (fails fault_D) (fails fault_D) fault_D fault_D
           eq_refl eq_refl eq_refl).
Defined.

Lemma metadata_items_are_all_shown_witness :
  NoDup ((Node.metadata node_awkward).*1)
  /\ node_line node_awkward
     = "[Node] ID: 9, Label: Note, Meta: {'title': " +:+ chr DQUOTE +:+ "it's"
       +:+ chr DQUOTE +:+ ", 'path': 'C:\\tmp', 'body': 'a\nb'}".
Proof.
  assert (NoDup ((Node.metadata node_awkward).*1)) as Hnodup.
  { apply (bool_decide_unpack _). reflexivity. }
  split; [exact Hnodup|].
  exact (proj1 (metadata_items_are_all_shown node_awkward Hnodup)).
Defined.

End MoreRuns.
